(** * ConcertsVienna: a shallow embedding of the concert pipeline

    The development follows the four source files:
    - [modules/web_logger.py]  ([WebLogger]): the scraper [collect_data];
    - [modules/api_logger.py]  ([ApiLogger]): the MusicBrainz and Spotify
      adapters;
    - [modules/safe_data.py]   ([SafeData]): the PostgreSQL repository;
    - [main.py]                ([Main]): the interactive step and the
      collect-and-persist pipeline.

    Python code is embedded in a state-and-exception monad over the process
    state (console output and database connection).  The network is an
    explicit oracle from requests to responses. *)

From Stdlib Require Import String Ascii List ZArith Lia Bool Arith Permutation.
From Stdlib Require Import Floats.PrimFloat.
Import ListNotations.

Set Warnings "-register-all".

Open Scope string_scope.
Open Scope list_scope.
Open Scope nat_scope.

(* ================================================================== *)
(** * Python runtime: exceptions and results *)
(* ================================================================== *)

(** The exceptions the embedded code can raise.  The last five are the
    psycopg2 errors of the statements in [safe_data.py]. *)
Inductive exn : Type :=
| TypeError
| KeyError
| IndexError
| AttributeError
| ValueError
| UnboundLocalError
| RequestException
| UniqueViolation
| StringDataRightTruncation
| CheckViolation
| ForeignKeyViolation
| DataError
| DependentObjectsStillExist.

Inductive result (A : Type) : Type :=
| Ok (a : A)
| Raise (e : exn).
Arguments Ok {A} a.
Arguments Raise {A} e.

Definition is_ok {A} (r : result A) : bool :=
  match r with Ok _ => true | Raise _ => false end.

(* ================================================================== *)
(** * Python strings *)
(* ================================================================== *)

Module PyStr.

(** [s.split(sep)] for a non-empty separator: a left-to-right scan for
    non-overlapping occurrences.  [skip] counts the characters of a matched
    separator that are still to be dropped.  (Python raises on an empty
    separator; every call site passes a non-empty literal.) *)
Fixpoint split_from (sep : string) (skip : nat) (s : string) : list string :=
  match s with
  | EmptyString => [EmptyString]
  | String c s' =>
      match skip with
      | S k => split_from sep k s'
      | O =>
          if String.prefix sep s
          then EmptyString :: split_from sep (String.length sep - 1) s'
          else match split_from sep 0 s' with
               | p :: ps => String c p :: ps
               | [] => [String c EmptyString]
               end
      end
  end.

Definition split (sep s : string) : list string := split_from sep 0 s.

(** [l[i]] on a list. *)
Definition index {A} (l : list A) (i : nat) : result A :=
  match nth_error l i with
  | Some x => Ok x
  | None => Raise IndexError
  end.

(** The part of [s] before the first occurrence of [sep] (all of [s] when
    there is none). *)
Fixpoint before (sep s : string) : string :=
  match s with
  | EmptyString => EmptyString
  | String c s' =>
      if String.prefix sep s then EmptyString else String c (before sep s')
  end.

(** [sep] occurs in [s] at some position. *)
Fixpoint occurs (sep s : string) : bool :=
  match s with
  | EmptyString => String.prefix sep EmptyString
  | String _ s' => String.prefix sep s || occurs sep s'
  end.

(** [" ".join(l)] *)
Definition join (sep : string) (l : list string) : string :=
  String.concat sep l.

End PyStr.

(* ================================================================== *)
(** * JSON payloads as Python values *)
(* ================================================================== *)

(** What [response.json()] and [json.loads] produce: None, bool, int, float,
    str, list and dict (string keys, in payload order). *)
Inductive value : Type :=
| VNone
| VBool (b : bool)
| VInt (z : Z)
| VFloat (f : float)
| VStr (s : string)
| VList (l : list value)
| VDict (d : list (string * value)).

Module Py.

Fixpoint lookup {A} (k : string) (d : list (string * A)) : option A :=
  match d with
  | [] => None
  | (k', v) :: d' => if String.eqb k' k then Some v else lookup k d'
  end.

(** [v == s] for a str [s]: values of another type compare unequal. *)
Definition eq_str (v : value) (s : string) : bool :=
  match v with
  | VStr s' => String.eqb s' s
  | _ => false
  end.

(** [k in v] for a str [k]. *)
Definition contains (k : string) (v : value) : result bool :=
  match v with
  | VDict d => Ok (match lookup k d with Some _ => true | None => false end)
  | VList l => Ok (existsb (fun x => eq_str x k) l)
  | VStr s => Ok (PyStr.occurs k s)
  | VNone | VBool _ | VInt _ | VFloat _ => Raise TypeError
  end.

(** [v[k]] for a str [k]. *)
Definition getitem (v : value) (k : string) : result value :=
  match v with
  | VDict d => match lookup k d with Some x => Ok x | None => Raise KeyError end
  | _ => Raise TypeError
  end.

(** [v[0]] *)
Definition getitem0 (v : value) : result value :=
  match v with
  | VList l => match l with x :: _ => Ok x | [] => Raise IndexError end
  | VStr s =>
      match s with
      | String c _ => Ok (VStr (String c EmptyString))
      | EmptyString => Raise IndexError
      end
  | VDict _ => Raise KeyError
  | VNone | VBool _ | VInt _ | VFloat _ => Raise TypeError
  end.

(** Truth value, as tested by [if v:]. *)
Definition truthy (v : value) : bool :=
  match v with
  | VNone => false
  | VBool b => b
  | VInt z => negb (Z.eqb z 0)
  | VFloat f => negb (PrimFloat.eqb f 0%float)
  | VStr s => negb (String.eqb s EmptyString)
  | VList l => match l with [] => false | _ => true end
  | VDict d => match d with [] => false | _ => true end
  end.

Definition is_none (v : value) : bool :=
  match v with VNone => true | _ => false end.

(** [len(v)] *)
Definition len (v : value) : result nat :=
  match v with
  | VList l => Ok (List.length l)
  | VDict d => Ok (List.length d)
  | VStr s => Ok (String.length s)
  | VNone | VBool _ | VInt _ | VFloat _ => Raise TypeError
  end.

Fixpoint chars (s : string) : list value :=
  match s with
  | EmptyString => []
  | String c s' => VStr (String c EmptyString) :: chars s'
  end.

(** The elements a [for] loop over [v] visits. *)
Definition iter (v : value) : result (list value) :=
  match v with
  | VList l => Ok l
  | VDict d => Ok (map (fun kv => VStr (fst kv)) d)
  | VStr s => Ok (chars s)
  | VNone | VBool _ | VInt _ | VFloat _ => Raise TypeError
  end.

End Py.

(* ================================================================== *)
(** * Data model *)
(* ================================================================== *)

(** A calendar date (a pandas Timestamp at midnight). *)
Record date : Type := mkDate { year : nat; month : nat; day : nat }.

(** One row of the scraped DataFrame.  [Date] is [None] for NaT. *)
Record concert : Type := mkConcert {
  Date : option date;
  Artist : string;
  Location : string
}.

Definition DataFrame : Type := list concert.

(** ** The relational schema of [create_tables]

    [SERIAL] keys are integers drawn from a per-table sequence; a nullable
    column is an [option]. *)
Record location_row : Type := mkLocation {
  location_id : Z;
  location_name : option string
}.

Record area_row : Type := mkArea {
  area_id : Z;
  area_name : option string
}.

Record artist_row : Type := mkArtist {
  artist_id : Z;
  artist_area_id : option Z;
  artist_name : string;
  mb_id : option string
}.

Record concert_row : Type := mkConcertRow {
  concert_id : Z;
  concert_location_id : option Z;
  concert_artist_id : option Z;
  concert_date : date
}.

Record album_row : Type := mkAlbum {
  album_id : Z;
  album_artist_id : option Z;
  album_name : option string
}.

(** Table contents in insertion order, with the next value of each
    sequence. *)
Record tables : Type := mkTables {
  locations : list location_row;
  locations_seq : Z;
  areas : list area_row;
  areas_seq : Z;
  artists : list artist_row;
  artists_seq : Z;
  concerts_data : list concert_row;
  concerts_data_seq : Z;
  albums : list album_row;
  albums_seq : Z
}.

Definition empty_tables : tables :=
  mkTables [] 1 [] 1 [] 1 [] 1 [] 1.

(** The sequences behind the [SERIAL] keys, under the names PostgreSQL gives
    them. *)
Inductive sequence : Type :=
| locations_location_id_seq
| areas_area_id_seq
| artists_artist_id_seq
| concerts_data_concert_id_seq
| albums_album_id_seq.

(** The connection of [ManageDatabase] to the database [concerts].
    [current] is the working state of the open transaction and [committed]
    what the database holds for every other session: the rows of the last
    commit, and the sequences as they are now, since a sequence is not
    rolled back.  [has_tables] tells whether the schema [concerts_vienna]
    with its five tables is in the database, which is what [create_tables]
    depends on; the INSERT and SELECT statements of the fill methods are
    modelled on a database that has them. *)
Record connection : Type := mkConnection {
  current : tables;
  committed : tables;
  has_tables : bool
}.

(** ** Console and network *)

(** What the program prints, one event per [print] call, with the values
    interpolated into the message. *)
Inductive output : Type :=
| ConnectionToApiFailed
| ConnectionToWebsiteFailed
| TopTracksHeader (input_artist : string)
| TrackLine (number : nat) (name : value)
| CollectNotice
| DatabaseCreated.

(** The HTTP requests of [api_logger.py], one constructor per URL template,
    with the value interpolated into it. *)
Inductive request : Type :=
| ArtistSearch (name : string)
| ArtistLookup (mb_id : value)
| ReleaseGroupSearch (name : string)
| SpotifyToken
| SpotifySearch (token : string) (artist_name : string)
| SpotifyTopTracks (token : string) (artist_id : value).

Inductive response : Type :=
| NoConnection
| NotJson
| Json (v : value).

Definition network : Type := request -> response.

(** The process state. *)
Record world : Type := mkWorld {
  console : list output;
  conn : connection
}.

(* ================================================================== *)
(** * The monad of the embedded code *)
(* ================================================================== *)

Definition M (A : Type) : Type := world -> result A * world.

Definition ret {A} (a : A) : M A := fun w => (Ok a, w).

Definition raise {A} (e : exn) : M A := fun w => (Raise e, w).

Definition bind {A B} (c : M A) (k : A -> M B) : M B :=
  fun w =>
    match c w with
    | (Ok a, w') => k a w'
    | (Raise e, w') => (Raise e, w')
    end.

Declare Scope py_scope.
Delimit Scope py_scope with py.
Notation "x <- c ;; k" := (bind c (fun x => k))
  (at level 61, c at next level, right associativity) : py_scope.
Notation "c ;;; k" := (bind c (fun _ => k))
  (at level 61, right associativity) : py_scope.
Open Scope py_scope.

Definition lift {A} (r : result A) : M A := fun w => (r, w).

Definition print (o : output) : M unit :=
  fun w => (Ok tt, mkWorld (console w ++ [o]) (conn w)).

(** A [for] loop run for its effects. *)
Fixpoint for_each {A} (l : list A) (body : A -> M unit) : M unit :=
  match l with
  | [] => ret tt
  | x :: l' => body x ;;; for_each l' body
  end.

(** A [for] loop that updates an accumulator. *)
Fixpoint for_fold {A S} (l : list A) (acc : S) (body : S -> A -> M S) : M S :=
  match l with
  | [] => ret acc
  | x :: l' => acc' <- body acc x ;; for_fold l' acc' body
  end.

(** A [for] loop that collects one result per element. *)
Fixpoint for_collect {A B} (l : list A) (body : A -> M B) : M (list B) :=
  match l with
  | [] => ret []
  | x :: l' => y <- body x ;; ys <- for_collect l' body ;; ret (y :: ys)
  end.

(* ================================================================== *)
(** * [modules/api_logger.py] *)
(* ================================================================== *)

Module ApiLogger.

Section WithNetwork.

Variable net : network.

(** ** [class ArtistInfos] *)

(** [requests.get(url).json()]; a [RequestException] (no connection, or a
    body that is not JSON) is caught and reported, and the method then
    returns None. *)
Definition api_request (url : request) : M value :=
  match net url with
  | Json v => ret v
  | NoConnection | NotJson => print ConnectionToApiFailed ;;; ret VNone
  end.

Definition get_artist_id (name : string) : M value :=
  query_data <- api_request (ArtistSearch name) ;;
  has_key <- lift (Py.contains "artists" query_data) ;;
  if has_key : bool then
    query_results <- lift (Py.getitem query_data "artists") ;;
    if Py.truthy query_results then
      first <- lift (Py.getitem0 query_results) ;;
      lift (Py.getitem first "id")
    else ret VNone
  else ret VNone.

Definition get_artist_area (mb_id : value) : M value :=
  artist_data <- api_request (ArtistLookup mb_id) ;;
  has_key <- lift (Py.contains "area" artist_data) ;;
  if has_key : bool then
    area <- lift (Py.getitem artist_data "area") ;;
    if negb (Py.is_none area) then
      area' <- lift (Py.getitem artist_data "area") ;;
      lift (Py.getitem area' "name")
    else ret VNone
  else ret VNone.

Definition get_album_names (name : string) : M (list value) :=
  album_data <- api_request (ReleaseGroupSearch name) ;;
  let albums := [] in
  has_key <- lift (Py.contains "release-groups" album_data) ;;
  if has_key : bool then
    release_groups <- lift (Py.getitem album_data "release-groups") ;;
    items <- lift (Py.iter release_groups) ;;
    for_fold items albums (fun albums release_group =>
      credit <- lift (Py.getitem release_group "artist-credit") ;;
      first <- lift (Py.getitem0 credit) ;;
      credited <- lift (Py.getitem first "name") ;;
      if Py.eq_str credited name then
        title <- lift (Py.getitem release_group "title") ;;
        ret (albums ++ [title])
      else ret albums)
  else ret albums.

(** ** [class SpotifyAPI] *)

(** [json.loads(get(url).content)]: nothing is caught here. *)
Definition spotify_request (url : request) : M value :=
  match net url with
  | Json v => ret v
  | NotJson => raise ValueError
  | NoConnection => raise RequestException
  end.

(** [__init__]: the client-credentials exchange; the object keeps the bearer
    token, and ['Bearer ' + token] needs a str. *)
Definition SpotifyAPI : M string :=
  json_result <- spotify_request SpotifyToken ;;
  token <- lift (Py.getitem json_result "access_token") ;;
  match token with
  | VStr t => ret t
  | _ => raise TypeError
  end.

Definition search_artist (token : string) (artist_name : string) : M value :=
  body <- spotify_request (SpotifySearch token artist_name) ;;
  found <- lift (Py.getitem body "artists") ;;
  json_result <- lift (Py.getitem found "items") ;;
  n <- lift (Py.len json_result) ;;
  if Nat.eqb n 0 then ret VNone
  else
    first <- lift (Py.getitem0 json_result) ;;
    lift (Py.getitem first "id").

Definition get_songs (token : string) (artist_id : value) : M value :=
  body <- spotify_request (SpotifyTopTracks token artist_id) ;;
  lift (Py.getitem body "tracks").

End WithNetwork.

End ApiLogger.

(* ================================================================== *)
(** * Dates: [pd.to_datetime(..., format='%d.%m.%Y')] and [strftime] *)
(* ================================================================== *)

Module Dates.

Definition digit_of (c : ascii) : option nat :=
  let n := nat_of_ascii c in
  if (48 <=? n) && (n <=? 57) then Some (n - 48) else None.

Definition nonzero_digit_of (c : ascii) : option nat :=
  match digit_of c with
  | Some 0 => None
  | r => r
  end.

Definition digit (n : nat) : ascii := ascii_of_nat (48 + n).

(** [%d]: the alternatives [3[0-1]], [[1-2]\d], [0[1-9]], [[1-9]] and
    [ [1-9]], tried in this order.  The directive is followed by a literal
    dot, so the first alternative that matches is the only one that can lead
    to a match of the whole format. *)
Definition parse_day (s : string) : option (nat * string) :=
  match s with
  | String c1 (String c2 rest) =>
      match digit_of c1, digit_of c2 with
      | Some 3, Some d2 =>
          if d2 <=? 1 then Some (30 + d2, rest) else Some (3, String c2 rest)
      | Some 1, Some d2 => Some (10 + d2, rest)
      | Some 2, Some d2 => Some (20 + d2, rest)
      | Some 0, Some (S d2) => Some (S d2, rest)
      | Some 0, _ => None
      | Some d1, _ => Some (d1, String c2 rest)
      | None, Some (S d2) =>
          if Ascii.eqb c1 " " then Some (S d2, rest) else None
      | None, _ => None
      end
  | String c1 EmptyString =>
      match nonzero_digit_of c1 with
      | Some d1 => Some (d1, EmptyString)
      | None => None
      end
  | EmptyString => None
  end.

(** [%m]: the alternatives [1[0-2]], [0[1-9]] and [[1-9]]. *)
Definition parse_month (s : string) : option (nat * string) :=
  match s with
  | String c1 (String c2 rest) =>
      match digit_of c1, digit_of c2 with
      | Some 1, Some d2 =>
          if d2 <=? 2 then Some (10 + d2, rest) else Some (1, String c2 rest)
      | Some 0, Some (S d2) => Some (S d2, rest)
      | Some 0, _ => None
      | Some d1, _ => Some (d1, String c2 rest)
      | None, _ => None
      end
  | String c1 EmptyString =>
      match nonzero_digit_of c1 with
      | Some d1 => Some (d1, EmptyString)
      | None => None
      end
  | EmptyString => None
  end.

(** [%Y]: exactly four digits. *)
Definition parse_year (s : string) : option (nat * string) :=
  match s with
  | String c1 (String c2 (String c3 (String c4 rest))) =>
      match digit_of c1, digit_of c2, digit_of c3, digit_of c4 with
      | Some d1, Some d2, Some d3, Some d4 =>
          Some (1000 * d1 + 100 * d2 + 10 * d3 + d4, rest)
      | _, _, _, _ => None
      end
  | _ => None
  end.

Definition leap (y : nat) : bool :=
  ((y mod 4 =? 0) && negb (y mod 100 =? 0)) || (y mod 400 =? 0).

Definition days_in_month (y m : nat) : nat :=
  match m with
  | 2 => if leap y then 29 else 28
  | 4 | 6 | 9 | 11 => 30
  | _ => 31
  end.

(** [d1 <= d2] in calendar order. *)
Definition date_leb (d1 d2 : date) : bool :=
  (year d1 <? year d2)
  || ((year d1 =? year d2)
      && ((month d1 <? month d2)
          || ((month d1 =? month d2) && (day d1 <=? day d2)))).

(** The midnights a nanosecond Timestamp can hold: pandas 2, the release
    line at the date of the code (2024/05), keeps what [to_datetime] parses
    at nanosecond resolution, from 1677-09-21 00:12:43 to
    2262-04-11 23:47:16. *)
Definition in_bounds (d : date) : bool :=
  date_leb (mkDate 1677 9 22) d && date_leb d (mkDate 2262 4 11).

(** The strings pandas reads as a missing date. *)
Definition nat_strings : list string :=
  ["NaT"; "nat"; "NAT"; "nan"; "NaN"; "NAN"].

Definition is_missing (s : string) : bool :=
  String.eqb s EmptyString || existsb (String.eqb s) nat_strings.

(** The literal dot of the format. *)
Definition after_dot (s : string) : option string :=
  match s with
  | String c s' => if Ascii.eqb c "." then Some s' else None
  | EmptyString => None
  end.

(** One cell of [pd.to_datetime(column, format='%d.%m.%Y')]: NaT for a
    missing value; [ValueError] when the text does not match the format
    exactly, names no calendar day, or lies outside the Timestamp range
    ([OutOfBoundsDatetime] is a [ValueError]). *)
Definition to_datetime (s : string) : result (option date) :=
  if is_missing s then Ok None
  else
    match parse_day s with
    | None => Raise ValueError
    | Some (d, r) =>
        match after_dot r with
        | None => Raise ValueError
        | Some s1 =>
            match parse_month s1 with
            | None => Raise ValueError
            | Some (m, r1) =>
                match after_dot r1 with
                | None => Raise ValueError
                | Some s2 =>
                    match parse_year s2 with
                    | Some (y, EmptyString) =>
                        if (d <=? days_in_month y m)
                           && in_bounds (mkDate y m d)
                        then Ok (Some (mkDate y m d))
                        else Raise ValueError
                    | _ => Raise ValueError
                    end
                end
            end
        end
    end.

Definition pad2 (n : nat) : string :=
  String (digit (n / 10)) (String (digit (n mod 10)) EmptyString).

Definition pad4 (n : nat) : string :=
  String (digit (n / 1000))
    (String (digit ((n / 100) mod 10))
       (String (digit ((n / 10) mod 10))
          (String (digit (n mod 10)) EmptyString))).

(** [strftime('%d.%m.%Y')] of a Timestamp (whose year has four digits).  The
    code does not call it: it is the formatting "with the same format" of
    the round trip. *)
Definition strftime (d : date) : string :=
  pad2 (day d) ++ "." ++ pad2 (month d) ++ "." ++ pad4 (year d).

(** The shape [dd.mm.yyyy]: ten characters, digits around two dots. *)
Definition zero_padded (s : string) : bool :=
  match s with
  | String d1 (String d2 (String p1 (String m1 (String m2 (String p2
      (String y1 (String y2 (String y3 (String y4 EmptyString))))))))) =>
      forallb
        (fun c => match digit_of c with Some _ => true | None => false end)
        [d1; d2; m1; m2; y1; y2; y3; y4]
      && Ascii.eqb p1 "." && Ascii.eqb p2 "."
  | _ => false
  end.

End Dates.

(* ================================================================== *)
(** * [modules/web_logger.py] *)
(* ================================================================== *)

(** A parsed page: text nodes and tags with their [class] attribute. *)
Inductive node : Type :=
| NText (s : string)
| NTag (classes : list string) (children : list node).

Module Soup.

(** [tag.text]: the strings below the tag, in document order. *)
Fixpoint text (n : node) : string :=
  match n with
  | NText s => s
  | NTag _ children => String.concat EmptyString (map text children)
  end.

(** Everything below a node, in document order. *)
Fixpoint descendants (n : node) : list node :=
  match n with
  | NText _ => []
  | NTag _ children => flat_map (fun c => c :: descendants c) children
  end.

(** [class_=q] matches a tag when [q] is one of its classes or the whole
    attribute. *)
Definition has_class (q : string) (n : node) : bool :=
  match n with
  | NText _ => false
  | NTag classes _ =>
      existsb (String.eqb q) classes || String.eqb (PyStr.join " " classes) q
  end.

Definition find_all (q : string) (n : node) : list node :=
  filter (has_class q) (descendants n).

Definition find (q : string) (n : node) : option node :=
  match find_all q n with
  | x :: _ => Some x
  | [] => None
  end.

End Soup.

Module WebLogger.

Definition website_class : string :=
  "grid-box grid-box-first grid-box-last grid-box-concerts-list".
Definition month_class : string := "ph-concerts-list is-3col".
Definition date_class : string :=
  "ph-concerts-list-col ph-concerts-list-date".
Definition artist_class : string :=
  "ph-concerts-list-col ph-concerts-list-artist".
Definition location_class : string :=
  "ph-concerts-list-col ph-concerts-list-location".

(** The three cleanup expressions of the loops. *)
Definition date_text (label : string) : result string :=
  PyStr.index (PyStr.split " " label) 1.

Definition artist_text (label : string) : result string :=
  PyStr.index (PyStr.split " live" label) 0.

Definition location_text (label : string) : result string :=
  PyStr.index (PyStr.split "," label) 0.

(** [for x in found: lst.append(clean(x.text))] *)
Definition append_all (lst : list string) (found : list node)
    (clean : string -> result string) : M (list string) :=
  for_fold found lst (fun lst x =>
    piece <- lift (clean (Soup.text x)) ;;
    ret (lst ++ [piece])).

Definition lists : Type := (list string * list string * list string)%type.

(** One turn of the [for month in months] loop. *)
Definition collect_month (acc : lists) (month : node) : M lists :=
  let '(dates, artists, locations) := acc in
  dates <- append_all dates (Soup.find_all date_class month) date_text ;;
  artists <-
    append_all artists (Soup.find_all artist_class month) artist_text ;;
  locations <-
    append_all locations (Soup.find_all location_class month)
      location_text ;;
  ret (dates, artists, locations).

(** The [for month in months] loop, from empty lists. *)
Definition collect_lists (months : list node) : M lists :=
  for_fold months (([], [], []) : lists) collect_month.

(** The concert entries of a month section: its k-th date, artist and
    location elements, for each k. *)
Definition month_entries (month : node) : list (node * node * node) :=
  combine
    (combine (Soup.find_all date_class month)
       (Soup.find_all artist_class month))
    (Soup.find_all location_class month).

(** The concert entries of the page, in source order. *)
Definition entries (months : list node) : list (node * node * node) :=
  flat_map month_entries months.

(** Well-formed markup of a month section: as many date as artist as
    location elements, and every date label has a second word. *)
Definition well_formed_month (month : node) : Prop :=
  List.length (Soup.find_all date_class month)
  = List.length (Soup.find_all artist_class month)
  /\ List.length (Soup.find_all artist_class month)
     = List.length (Soup.find_all location_class month)
  /\ Forall (fun x => is_ok (date_text (Soup.text x)) = true)
       (Soup.find_all date_class month).

(** [pd.DataFrame({'Date': dates, 'Artist': artists, 'Location': locations})]
    needs columns of one length. *)
Definition make_frame (l : lists) : M (list (string * string * string)) :=
  let '(dates, artists, locations) := l in
  if (List.length dates =? List.length artists)
     && (List.length artists =? List.length locations)
  then ret (combine (combine dates artists) locations)
  else raise ValueError.

(** [collect_data]; [page] is what [requests.get(self.url)] returns, [None]
    when it raises.  The exception is caught and reported, and the next
    statement then reads the unbound [scraper_response]. *)
Definition collect_data (page : option node) : M DataFrame :=
  match page with
  | None => print ConnectionToWebsiteFailed ;;; raise UnboundLocalError
  | Some concerts =>
      match Soup.find website_class concerts with
      | None => raise AttributeError
      | Some website =>
          let months := Soup.find_all month_class website in
          l <- collect_lists months ;;
          rows <- make_frame l ;;
          for_collect rows (fun row =>
            let '(d, a, loc) := row in
            d' <- lift (Dates.to_datetime d) ;;
            ret (mkConcert d' a loc))
      end
  end.

End WebLogger.

(* ================================================================== *)
(** * [modules/safe_data.py] *)
(* ================================================================== *)

Module SafeData.

(** ** Column constraints of [create_tables] *)

Fixpoint drop (n : nat) (s : string) : string :=
  match n, s with
  | O, _ => s
  | S _, EmptyString => EmptyString
  | S k, String _ s' => drop k s'
  end.

Fixpoint all_spaces (s : string) : bool :=
  match s with
  | EmptyString => true
  | String c s' => Ascii.eqb c " " && all_spaces s'
  end.

(** Storing into [VARCHAR(255)]: text beyond 255 characters is an error,
    unless it is all spaces, which are cut off. *)
Definition varchar255 (s : string) : result string :=
  if String.length s <=? 255 then Ok s
  else if all_spaces (drop 255 s) then Ok (String.substring 0 255 s)
  else Raise StringDataRightTruncation.

Definition varchar255_null (s : option string) : result (option string) :=
  match s with
  | None => Ok None
  | Some s =>
      match varchar255 s with
      | Ok s' => Ok (Some s')
      | Raise e => Raise e
      end
  end.

Definition is_hex (c : ascii) : bool :=
  let n := nat_of_ascii c in
  ((48 <=? n) && (n <=? 57)) || ((97 <=? n) && (n <=? 102))
  || ((65 <=? n) && (n <=? 70)).

(** [n] hexadecimal digits at the head of [s]; the rest of [s]. *)
Fixpoint hex_run (n : nat) (s : string) : option string :=
  match n with
  | O => Some s
  | S k =>
      match s with
      | String c s' => if is_hex c then hex_run k s' else None
      | EmptyString => None
      end
  end.

Definition hex_group (n : nat) (s : string) : option string :=
  match hex_run n s with
  | Some (String c s') => if Ascii.eqb c "-" then Some s' else None
  | _ => None
  end.

(** The CHECK on [mb_id]: a case-insensitive match of
    [^[0-9a-f]{8}-[0-9a-f]{4}-[0-9a-f]{4}-[0-9a-f]{4}-[0-9a-f]{12}$]. *)
Definition is_uuid (s : string) : bool :=
  match hex_group 8 s with
  | Some s1 =>
      match hex_group 4 s1 with
      | Some s2 =>
          match hex_group 4 s2 with
          | Some s3 =>
              match hex_group 4 s3 with
              | Some s4 =>
                  match hex_run 12 s4 with
                  | Some EmptyString => true
                  | _ => false
                  end
              | None => false
              end
          | None => false
          end
      | None => false
      end
  | None => false
  end.

(** The CHECK passes on NULL. *)
Definition mb_id_check (m : option string) : bool :=
  match m with
  | None => true
  | Some s => is_uuid s
  end.

(** [column = name] on a stored value: never true on NULL. *)
Definition name_is (name : string) (stored : option string) : bool :=
  match stored with
  | Some s => String.eqb s name
  | None => false
  end.

(** A foreign key is NULL or the key of a parent row. *)
Definition references (ids : list Z) (fk : option Z) : bool :=
  match fk with
  | None => true
  | Some i => existsb (Z.eqb i) ids
  end.

(** ** The statements, on the tables *)

Definition insert_location (name : option string) (t : tables)
    : result tables :=
  match varchar255_null name with
  | Raise e => Raise e
  | Ok None =>
      Ok (mkTables (locations t ++ [mkLocation (locations_seq t) None])
            (locations_seq t + 1) (areas t) (areas_seq t)
            (artists t) (artists_seq t)
            (concerts_data t) (concerts_data_seq t)
            (albums t) (albums_seq t))
  | Ok (Some s) =>
      if existsb (fun r => name_is s (location_name r)) (locations t)
      then Raise UniqueViolation
      else
        Ok (mkTables (locations t ++ [mkLocation (locations_seq t) (Some s)])
              (locations_seq t + 1) (areas t) (areas_seq t)
              (artists t) (artists_seq t)
              (concerts_data t) (concerts_data_seq t)
              (albums t) (albums_seq t))
  end.

Definition insert_area (name : option string) (t : tables) : result tables :=
  match varchar255_null name with
  | Raise e => Raise e
  | Ok None =>
      Ok (mkTables (locations t) (locations_seq t)
            (areas t ++ [mkArea (areas_seq t) None]) (areas_seq t + 1)
            (artists t) (artists_seq t)
            (concerts_data t) (concerts_data_seq t)
            (albums t) (albums_seq t))
  | Ok (Some s) =>
      if existsb (fun r => name_is s (area_name r)) (areas t)
      then Raise UniqueViolation
      else
        Ok (mkTables (locations t) (locations_seq t)
              (areas t ++ [mkArea (areas_seq t) (Some s)]) (areas_seq t + 1)
              (artists t) (artists_seq t)
              (concerts_data t) (concerts_data_seq t)
              (albums t) (albums_seq t))
  end.

Definition insert_artist (area : option Z) (name : string)
    (mb : option string) (t : tables) : result tables :=
  match varchar255 name with
  | Raise e => Raise e
  | Ok name' =>
      match varchar255_null mb with
      | Raise e => Raise e
      | Ok mb' =>
          if negb (mb_id_check mb') then Raise CheckViolation
          else if negb (references (map area_id (areas t)) area)
          then Raise ForeignKeyViolation
          else
            Ok (mkTables (locations t) (locations_seq t)
                  (areas t) (areas_seq t)
                  (artists t ++ [mkArtist (artists_seq t) area name' mb'])
                  (artists_seq t + 1)
                  (concerts_data t) (concerts_data_seq t)
                  (albums t) (albums_seq t))
      end
  end.

Definition insert_album (artist : option Z) (name : option string)
    (t : tables) : result tables :=
  match varchar255_null name with
  | Raise e => Raise e
  | Ok name' =>
      if negb (references (map artist_id (artists t)) artist)
      then Raise ForeignKeyViolation
      else
        Ok (mkTables (locations t) (locations_seq t)
              (areas t) (areas_seq t)
              (artists t) (artists_seq t)
              (concerts_data t) (concerts_data_seq t)
              (albums t ++ [mkAlbum (albums_seq t) artist name'])
              (albums_seq t + 1))
  end.

(** A NaT is not a value of the [DATE] column. *)
Definition insert_concert (location artist : option Z) (d : option date)
    (t : tables) : result tables :=
  match d with
  | None => Raise DataError
  | Some d =>
      if negb (references (map location_id (locations t)) location)
         || negb (references (map artist_id (artists t)) artist)
      then Raise ForeignKeyViolation
      else
        Ok (mkTables (locations t) (locations_seq t)
              (areas t) (areas_seq t)
              (artists t) (artists_seq t)
              (concerts_data t
                 ++ [mkConcertRow (concerts_data_seq t) location artist d])
              (concerts_data_seq t + 1)
              (albums t) (albums_seq t))
  end.

(** [SELECT key ... WHERE name = %s] followed by [fetchone()]: the key of the
    first matching row, or None.  A NULL parameter matches nothing.  (What
    [fetchone] returns is the one-column row; passed on as a parameter of the
    INSERT it is rendered as the parenthesised key, and None as NULL.) *)
Definition select_location_id (name : option string) (t : tables)
    : option Z :=
  match name with
  | None => None
  | Some n =>
      option_map location_id
        (List.find (fun r => name_is n (location_name r)) (locations t))
  end.

Definition select_area_id (name : option string) (t : tables) : option Z :=
  match name with
  | None => None
  | Some n =>
      option_map area_id
        (List.find (fun r => name_is n (area_name r)) (areas t))
  end.

Definition select_artist_id (name : string) (t : tables) : option Z :=
  option_map artist_id
    (List.find (fun r => String.eqb (artist_name r) name) (artists t)).

(** ** The cursor and the connection *)

(** [nextval]: the next key is drawn. *)
Definition nextval (s : sequence) (t : tables) : tables :=
  match s with
  | locations_location_id_seq =>
      mkTables (locations t) (locations_seq t + 1) (areas t) (areas_seq t)
        (artists t) (artists_seq t) (concerts_data t) (concerts_data_seq t)
        (albums t) (albums_seq t)
  | areas_area_id_seq =>
      mkTables (locations t) (locations_seq t) (areas t) (areas_seq t + 1)
        (artists t) (artists_seq t) (concerts_data t) (concerts_data_seq t)
        (albums t) (albums_seq t)
  | artists_artist_id_seq =>
      mkTables (locations t) (locations_seq t) (areas t) (areas_seq t)
        (artists t) (artists_seq t + 1)
        (concerts_data t) (concerts_data_seq t) (albums t) (albums_seq t)
  | concerts_data_concert_id_seq =>
      mkTables (locations t) (locations_seq t) (areas t) (areas_seq t)
        (artists t) (artists_seq t)
        (concerts_data t) (concerts_data_seq t + 1) (albums t) (albums_seq t)
  | albums_album_id_seq =>
      mkTables (locations t) (locations_seq t) (areas t) (areas_seq t)
        (artists t) (artists_seq t) (concerts_data t) (concerts_data_seq t)
        (albums t) (albums_seq t + 1)
  end.

(** The errors of an INSERT that come after its key was drawn: the CHECK,
    the unique index and the foreign keys are tested on the row that was
    formed, with its key.  A parameter that is no value of its column is an
    error of the statement itself (psycopg2 sends the parameters as
    literals), before a key is drawn. *)
Definition draws_key (e : exn) : bool :=
  match e with
  | UniqueViolation | CheckViolation | ForeignKeyViolation => true
  | _ => false
  end.

(** The rows of [rows] with the sequences of [t]. *)
Definition with_sequences (t rows : tables) : tables :=
  mkTables (locations rows) (locations_seq t) (areas rows) (areas_seq t)
    (artists rows) (artists_seq t)
    (concerts_data rows) (concerts_data_seq t) (albums rows) (albums_seq t).

(** The connection after the working state became [t]: the rows of [t] are
    uncommitted, its sequences are everyone's. *)
Definition working (t : tables) (c : connection) : connection :=
  mkConnection t (with_sequences t (committed c)) (has_tables c).

(** [self.cursor.execute] of an INSERT that draws its key from [key].  When
    it fails after the key was drawn, the key is lost: the rows stay as they
    were and the sequence does not go back. *)
Definition execute (key : sequence) (stmt : tables -> result tables)
    : M unit :=
  fun w =>
    match stmt (current (conn w)) with
    | Ok t => (Ok tt, mkWorld (console w) (working t (conn w)))
    | Raise e =>
        (Raise e,
         mkWorld (console w)
           (working (if draws_key e then nextval key (current (conn w))
                     else current (conn w))
              (conn w)))
    end.

(** [self.cursor.execute] of a SELECT, then [self.cursor.fetchone()]. *)
Definition fetchone {A} (query : tables -> A) : M A :=
  fun w => (Ok (query (current (conn w))), w).

(** [self.conn.commit()] *)
Definition commit : M unit :=
  fun w =>
    (Ok tt,
     mkWorld (console w)
       (mkConnection (current (conn w)) (current (conn w))
          (has_tables (conn w)))).

(** [create_database()] followed by [ManageDatabase()]: the database is
    dropped, created anew and connected to; there is nothing in it. *)
Definition create_database : M unit :=
  fun w =>
    (Ok tt,
     mkWorld (console w) (mkConnection empty_tables empty_tables false)).

(** [create_tables]: [DROP SCHEMA IF EXISTS] has no [CASCADE], so it raises
    on a schema that holds the tables, and nothing is changed.  On a
    database without the schema, the schema and its five empty tables are
    created, their sequences at 1, and the transaction is committed. *)
Definition create_tables : M unit :=
  fun w =>
    if has_tables (conn w) then (Raise DependentObjectsStillExist, w)
    else
      (Ok tt,
       mkWorld (console w) (mkConnection empty_tables empty_tables true)).

(** ** The fill methods of [ManageDatabase] *)

Definition fill_locations_table (lst : list (option string)) : M unit :=
  for_each lst (fun item =>
    execute locations_location_id_seq (insert_location item)) ;;;
  commit.

Definition fill_areas_table (lst : list (option string)) : M unit :=
  for_each lst (fun item =>
    execute areas_area_id_seq (insert_area item)) ;;;
  commit.

(** [dicti]: artist name to [(area, mb_id)], in insertion order. *)
Definition fill_artists_table
    (dicti : list (string * (option string * option string))) : M unit :=
  for_each dicti (fun item =>
    let '(artist, area_mbid) := item in
    area_id <- fetchone (select_area_id (fst area_mbid)) ;;
    execute artists_artist_id_seq
      (insert_artist area_id artist (snd area_mbid))) ;;;
  commit.

(** [dicti]: artist name to the list of album names. *)
Definition fill_albums_table
    (dicti : list (string * list (option string))) : M unit :=
  for_each dicti (fun item =>
    let '(artist, albums) := item in
    artist_id <- fetchone (select_artist_id artist) ;;
    match albums with
    | [] => ret tt
    | _ =>
        for_each albums (fun album =>
          execute albums_album_id_seq (insert_album artist_id album))
    end) ;;;
  commit.

Definition fill_concerts_table (df : DataFrame) : M unit :=
  for_each df (fun row =>
    location_id <- fetchone (select_location_id (Some (Location row))) ;;
    artist_id <- fetchone (select_artist_id (Artist row)) ;;
    execute concerts_data_concert_id_seq
      (insert_concert location_id artist_id (Date row))) ;;;
  commit.

End SafeData.

(* ================================================================== *)
(** * [main.py] *)
(* ================================================================== *)

Module Main.

(** [Series.unique()]: distinct values in order of first appearance. *)
Fixpoint unique {A} (eqb : A -> A -> bool) (l : list A) : list A :=
  match l with
  | [] => []
  | x :: l' => x :: filter (fun y => negb (eqb x y)) (unique eqb l')
  end.

Definition opt_eqb (a b : option string) : bool :=
  match a, b with
  | Some x, Some y => String.eqb x y
  | None, None => true
  | _, _ => false
  end.

(** [Series.dropna()] *)
Definition dropna (l : list (option string)) : list (option string) :=
  filter (fun a => match a with Some _ => true | None => false end) l.

(** [d[k] = v] on a dict in insertion order. *)
Fixpoint dict_set {A} (d : list (string * A)) (k : string) (v : A)
    : list (string * A) :=
  match d with
  | [] => [(k, v)]
  | (k', v') :: d' =>
      if String.eqb k' k then (k', v) :: d' else (k', v') :: dict_set d' k v
  end.

(** The tables hold text.  An id, area or title taken from a payload is kept
    as None or as a str; a payload with another kind of value in that place
    is outside the data contract and ends the modelled run. *)
Definition as_text (v : value) : M (option string) :=
  match v with
  | VNone => ret None
  | VStr s => ret (Some s)
  | _ => raise TypeError
  end.

Fixpoint enumerate_from {A} (i : nat) (l : list A) : list (nat * A) :=
  match l with
  | [] => []
  | x :: l' => (i, x) :: enumerate_from (S i) l'
  end.

Section WithNetwork.

Variable net : network.

(** ** Top tracks (the Spotify part of the interactive step) *)
Definition top_tracks (input_artist : string) : M unit :=
  spotify <- ApiLogger.SpotifyAPI net ;;
  spotify_id <- ApiLogger.search_artist net spotify input_artist ;;
  songs <- ApiLogger.get_songs net spotify spotify_id ;;
  print (TopTracksHeader input_artist) ;;;
  items <- lift (Py.iter songs) ;;
  for_each (enumerate_from 0 items) (fun idx_song =>
    let '(idx, song) := idx_song in
    name <- lift (Py.getitem song "name") ;;
    print (TrackLine (idx + 1) name)).

(** ** Collect data *)

Definition artists_data : Type :=
  list (string * (option string * option string)).
Definition albums_data : Type := list (string * list (option string)).

Definition collect_artists (artists_names : list string) : M artists_data :=
  for_fold artists_names ([] : artists_data) (fun dicti artist =>
    mb_id <- ApiLogger.get_artist_id net artist ;;
    area <- ApiLogger.get_artist_area net mb_id ;;
    area' <- as_text area ;;
    mb_id' <- as_text mb_id ;;
    ret (dict_set dicti artist (area', mb_id'))).

Definition collect_albums (artists_names : list string) : M albums_data :=
  for_fold artists_names ([] : albums_data) (fun dicti artist =>
    albums <- ApiLogger.get_album_names net artist ;;
    albums' <- for_collect albums as_text ;;
    ret (dict_set dicti artist albums')).

(** ** Database *)

Definition locations_lst (df : DataFrame) : list string :=
  unique String.eqb (map Location df).

(** [artists_data_df['Area'].dropna().unique().tolist()] *)
Definition areas_lst (dicti : artists_data) : list (option string) :=
  unique opt_eqb (dropna (map (fun kv => fst (snd kv)) dicti)).

Definition fill_database (df : DataFrame) (artists_data_dicti : artists_data)
    (albums_data_dicti : albums_data) : M unit :=
  SafeData.create_database ;;;
  SafeData.create_tables ;;;
  SafeData.fill_locations_table (map Some (locations_lst df)) ;;;
  SafeData.fill_areas_table (areas_lst artists_data_dicti) ;;;
  SafeData.fill_artists_table artists_data_dicti ;;;
  SafeData.fill_albums_table albums_data_dicti ;;;
  SafeData.fill_concerts_table df ;;;
  print DatabaseCreated.

(** The run from COLLECT DATA to the filled database, given the scraped
    frame. *)
Definition pipeline (df : DataFrame) : M unit :=
  let artists_names := unique String.eqb (map Artist df) in
  print CollectNotice ;;;
  artists_data_dicti <- collect_artists artists_names ;;
  albums_data_dicti <- collect_albums artists_names ;;
  fill_database df artists_data_dicti albums_data_dicti.

End WithNetwork.

End Main.

(* ================================================================== *)
(** * The cleanup the specification describes *)
(* ================================================================== *)

Module Spec.

(** "A trailing [suffix] removed, and otherwise unchanged": [s] without
    [suffix] when [s] ends with it, and [s] itself when it does not. *)
Fixpoint remove_trailing (suffix s : string) : string :=
  if String.eqb s suffix then EmptyString
  else
    match s with
    | EmptyString => EmptyString
    | String c s' => String c (remove_trailing suffix s')
    end.

(** "Well-formed markup (each month section containing equally many date,
    artist, and location sub-elements)". *)
Definition equal_counts (month : node) : Prop :=
  List.length (Soup.find_all WebLogger.date_class month)
  = List.length (Soup.find_all WebLogger.artist_class month)
  /\ List.length (Soup.find_all WebLogger.artist_class month)
     = List.length (Soup.find_all WebLogger.location_class month).

(** "A valid zero-padded date string in dd.mm.yyyy form" has two digits, a
    dot, two digits, a dot and four digits ([Dates.zero_padded]).
    [day_named]: the day that its digits name, read place by place. *)
Definition day_named (s : string) : option date :=
  match s with
  | String d1 (String d2 (String _ (String m1 (String m2 (String _
      (String y1 (String y2 (String y3 (String y4 EmptyString))))))))) =>
      match Dates.digit_of d1, Dates.digit_of d2 with
      | Some a, Some b =>
          match Dates.digit_of m1, Dates.digit_of m2 with
          | Some c, Some e =>
              match Dates.digit_of y1, Dates.digit_of y2,
                    Dates.digit_of y3, Dates.digit_of y4 with
              | Some f, Some g, Some h, Some i =>
                  Some (mkDate (1000 * f + 100 * g + 10 * h + i)
                          (10 * c + e) (10 * a + b))
              | _, _, _, _ => None
              end
          | _, _ => None
          end
      | _, _ => None
      end
  | _ => None
  end.

(** The string is valid when that day is a day of the calendar. *)
Definition on_calendar (d : date) : bool :=
  (1 <=? month d) && (month d <=? 12) && (1 <=? day d)
  && (day d <=? Dates.days_in_month (year d) (month d)).

End Spec.

(* ================================================================== *)
(** * The repository seen as table transformers *)
(* ================================================================== *)

Module Repo.

(** The world after the working tables became [t]. *)
Definition set_current (w : world) (t : tables) : world :=
  mkWorld (console w) (SafeData.working t (conn w)).

(** The world after [t] was committed. *)
Definition set_committed (w : world) (t : tables) : world :=
  mkWorld (console w) (mkConnection t t (has_tables (conn w))).

(** [w'] is [w] with the working tables [t], whatever is committed. *)
Definition reaches (w : world) (t : tables) (w' : world) : Prop :=
  console w' = console w
  /\ current (conn w') = t
  /\ has_tables (conn w') = has_tables (conn w).

(** A sequence of statements on the tables, stopping at the first error. *)
Fixpoint run_all {A} (stmt : A -> tables -> result tables) (l : list A)
    (t : tables) : result tables :=
  match l with
  | [] => Ok t
  | x :: l' =>
      match stmt x t with
      | Ok t' => run_all stmt l' t'
      | Raise e => Raise e
      end
  end.

(** The statements of one turn of each fill loop. *)
Definition artist_stmt (item : string * (option string * option string))
    (t : tables) : result tables :=
  SafeData.insert_artist (SafeData.select_area_id (fst (snd item)) t)
    (fst item) (snd (snd item)) t.

Definition album_stmt (item : string * list (option string)) (t : tables)
    : result tables :=
  run_all (SafeData.insert_album (SafeData.select_artist_id (fst item) t))
    (snd item) t.

Definition concert_stmt (row : concert) (t : tables) : result tables :=
  SafeData.insert_concert
    (SafeData.select_location_id (Some (Location row)) t)
    (SafeData.select_artist_id (Artist row) t) (Date row) t.

(** Rows appended to one table, with its sequence advanced. *)
Definition append_locations (rows : list location_row) (t : tables) : tables :=
  mkTables (locations t ++ rows)
    (locations_seq t + Z.of_nat (List.length rows))
    (areas t) (areas_seq t) (artists t) (artists_seq t)
    (concerts_data t) (concerts_data_seq t) (albums t) (albums_seq t).

Definition append_areas (rows : list area_row) (t : tables) : tables :=
  mkTables (locations t) (locations_seq t)
    (areas t ++ rows) (areas_seq t + Z.of_nat (List.length rows))
    (artists t) (artists_seq t)
    (concerts_data t) (concerts_data_seq t) (albums t) (albums_seq t).

Definition append_artists (rows : list artist_row) (t : tables) : tables :=
  mkTables (locations t) (locations_seq t) (areas t) (areas_seq t)
    (artists t ++ rows) (artists_seq t + Z.of_nat (List.length rows))
    (concerts_data t) (concerts_data_seq t) (albums t) (albums_seq t).

Definition append_concerts (rows : list concert_row) (t : tables) : tables :=
  mkTables (locations t) (locations_seq t) (areas t) (areas_seq t)
    (artists t) (artists_seq t)
    (concerts_data t ++ rows)
    (concerts_data_seq t + Z.of_nat (List.length rows))
    (albums t) (albums_seq t).

Definition append_albums (rows : list album_row) (t : tables) : tables :=
  mkTables (locations t) (locations_seq t) (areas t) (areas_seq t)
    (artists t) (artists_seq t)
    (concerts_data t) (concerts_data_seq t)
    (albums t ++ rows) (albums_seq t + Z.of_nat (List.length rows)).

(** Text that fits a [VARCHAR(255)] column. *)
Definition fits (s : string) : Prop := String.length s <= 255.

Definition fits_null (s : option string) : Prop :=
  match s with
  | Some s => fits s
  | None => True
  end.

(** Keys drawn from a sequence: distinct, and below its next value. *)
Definition keys_ok (ids : list Z) (seq : Z) : Prop :=
  NoDup ids /\ Forall (fun i => (i < seq)%Z) ids.

(** The (artist, album) pairs of the albums dictionary, in loop order. *)
Definition album_pairs (dicti : list (string * list (option string)))
    : list (string * option string) :=
  flat_map (fun item => map (fun album => (fst item, album)) (snd item)) dicti.

(** The tables after the five fills, from empty tables. *)
Definition database_of (rowsL : list location_row) (rowsA : list area_row)
    (rowsR : list artist_row) (rowsB : list album_row)
    (rowsC : list concert_row) : tables :=
  append_concerts rowsC
    (append_albums rowsB
       (append_artists rowsR
          (append_areas rowsA (append_locations rowsL empty_tables)))).

End Repo.

(* ================================================================== *)
(** * Well-formed release-group payloads *)
(* ================================================================== *)

Module Payload.

(** The list under ['release-groups'] of a release-group search payload. *)
Definition release_groups (payload : value) : option (list value) :=
  match payload with
  | VDict d =>
      match Py.lookup "release-groups" d with
      | Some (VList groups) => Some groups
      | _ => None
      end
  | _ => None
  end.

(** The first credited artist name and the title of a release-group. *)
Definition credited_title (group : value) : option (string * value) :=
  match group with
  | VDict g =>
      match Py.lookup "artist-credit" g, Py.lookup "title" g with
      | Some (VList (VDict credit :: _)), Some title =>
          match Py.lookup "name" credit with
          | Some (VStr name) => Some (name, title)
          | _ => None
          end
      | _, _ => None
      end
  | _ => None
  end.

(** The Python value of a nullable text. *)
Definition of_text (x : option string) : value :=
  match x with
  | Some s => VStr s
  | None => VNone
  end.

End Payload.

(* ================================================================== *)
(** * Invariants of the database code *)
(* ================================================================== *)

Module Invariants.

(** The rows of the five tables, and the next values of their sequences. *)
Definition rows (t : tables)
    : list location_row * list area_row * list artist_row
      * list concert_row * list album_row :=
  (locations t, areas t, artists t, concerts_data t, albums t).

Definition sequences (t : tables) : Z * Z * Z * Z * Z :=
  (locations_seq t, areas_seq t, artists_seq t, concerts_data_seq t,
   albums_seq t).

Definition value_of (s : sequence) (t : tables) : Z :=
  match s with
  | locations_location_id_seq => locations_seq t
  | areas_area_id_seq => areas_seq t
  | artists_artist_id_seq => artists_seq t
  | concerts_data_concert_id_seq => concerts_data_seq t
  | albums_album_id_seq => albums_seq t
  end.

(** No sequence of [t'] is behind that of [t]. *)
Definition advanced (t t' : tables) : Prop :=
  forall s, (value_of s t <= value_of s t')%Z.

(** A statement that draws keys and gives none back. *)
Definition draws (stmt : tables -> result tables) : Prop :=
  forall t t', stmt t = Ok t' -> advanced t t'.

(** A computation that neither commits rows nor prints, that never sets a
    sequence back and that, when it raises, leaves the sequences of the
    database where the failed transaction took them. *)
Definition stable {A} (c : M A) : Prop :=
  forall w,
    rows (committed (conn (snd (c w)))) = rows (committed (conn w))
    /\ console (snd (c w)) = console w
    /\ advanced (current (conn w)) (current (conn (snd (c w))))
    /\ (forall e, fst (c w) = Raise e ->
          sequences (committed (conn (snd (c w))))
          = sequences (current (conn (snd (c w))))).

(** A computation that prints nothing and commits everything it did or,
    when it raises, no row: the committed rows are those from before, and
    only the keys that were drawn are gone. *)
Definition all_or_nothing {A} (c : M A) (w : world) : Prop :=
  console (snd (c w)) = console w
  /\ advanced (current (conn w)) (current (conn (snd (c w))))
  /\ match fst (c w) with
     | Ok _ => committed (conn (snd (c w))) = current (conn (snd (c w)))
     | Raise _ =>
         rows (committed (conn (snd (c w)))) = rows (committed (conn w))
         /\ sequences (committed (conn (snd (c w))))
            = sequences (current (conn (snd (c w))))
     end.

(** Two runs with the same result and the same database at their end. *)
Definition same_outcome {A} (p q : result A * world) : Prop :=
  fst p = fst q /\ conn (snd p) = conn (snd q).

(** A computation whose result and database depend on the database only. *)
Definition database_only {A} (c : M A) : Prop :=
  forall w1 w2, conn w1 = conn w2 -> same_outcome (c w1) (c w2).

End Invariants.

(* ================================================================== *)
(** * Sample inputs *)
(* ================================================================== *)

Module Examples.

(** A process that has printed nothing, on a database whose tables are
    empty. *)
Definition fresh_world : world :=
  mkWorld [] (mkConnection empty_tables empty_tables true).

Definition entry (d a l : string) : node :=
  NTag ["ph-concerts-list-item"]
    [NTag ["ph-concerts-list-col"; "ph-concerts-list-date"] [NText d];
     NTag ["ph-concerts-list-col"; "ph-concerts-list-artist"] [NText a];
     NTag ["ph-concerts-list-col"; "ph-concerts-list-location"] [NText l]].

(** A month section with two concerts. *)
Definition month_of_two : node :=
  NTag ["ph-concerts-list"; "is-3col"]
    [entry "Fr. 01.03.2024" "Powerwolf live" "Gasometer, Wien";
     entry "Sa. 02.03.2024" "Nightwish live" "Stadthalle, Wien"].

(** A release-group search result. *)
Definition release_group (artist title : string) : value :=
  VDict [("id", VStr "0"); ("title", VStr title);
         ("artist-credit", VList [VDict [("name", VStr artist)]])].

Definition two_artists_payload : value :=
  VDict [("count", VInt 3);
         ("release-groups",
          VList [release_group "Artist A" "First";
                 release_group "Artist B" "Other";
                 release_group "Artist A" "Second"])].

(** No request gets through. *)
Definition offline : network := fun _ => NoConnection.

(** A catalog that finds no artist, and answers a request for the top
    tracks of the id None with an error object. *)
Definition no_match_catalog : network := fun r =>
  match r with
  | SpotifyToken => Json (VDict [("access_token", VStr "token")])
  | SpotifySearch _ _ => Json (VDict [("artists", VDict [("items", VList [])])])
  | SpotifyTopTracks _ VNone =>
      Json (VDict [("error", VDict [("status", VInt 400);
                                    ("message", VStr "Invalid base62 id")])])
  | _ => NotJson
  end.

(** A concert and an artist entry for an empty database. *)
Definition orphan_concerts : DataFrame :=
  [mkConcert (Some (mkDate 2024 3 1)) "Powerwolf" "Gasometer"].

Definition sample_uuid : string := "a1b2c3d4-0000-4000-8000-0123456789ab".

Definition orphan_artists : list (string * (option string * option string)) :=
  [("Powerwolf", (Some "Germany", Some sample_uuid))].

(** Two artists from Austria and one without area. *)
Definition three_artists : list (string * (option string * option string)) :=
  [("Alpha", (Some "Austria", Some sample_uuid));
   ("Beta", (None, None));
   ("Gamma", (Some "Austria", None))].

Definition other_uuid : string := "0f1e2d3c-1111-4222-8333-ba9876543210".

(** MusicBrainz for the scenario: Powerwolf is from Austria, any other
    artist has no area. *)
Definition scenario_net : network := fun r =>
  match r with
  | ArtistSearch name =>
      Json (VDict [("artists",
                    VList [VDict [("id", VStr (if String.eqb name "Powerwolf"
                                               then sample_uuid
                                               else other_uuid));
                                  ("name", VStr name)]])])
  | ArtistLookup mb_id =>
      if Py.eq_str mb_id sample_uuid
      then Json (VDict [("area", VDict [("name", VStr "Austria")])])
      else Json (VDict [("area", VNone)])
  | ReleaseGroupSearch name =>
      Json (VDict [("release-groups",
                    VList [release_group "Powerwolf" "Blessed";
                           release_group "Nightwish" "Once"])])
  | _ => NotJson
  end.

(** Powerwolf on two dates, Nightwish on one, at two locations. *)
Definition scenario_df : DataFrame :=
  [mkConcert (Some (mkDate 2024 3 1)) "Powerwolf" "Gasometer";
   mkConcert (Some (mkDate 2024 3 2)) "Nightwish" "Stadthalle";
   mkConcert (Some (mkDate 2024 3 8)) "Powerwolf" "Stadthalle"].


(** A catalog that knows one artist with two top tracks. *)
Definition one_match_catalog : network := fun r =>
  match r with
  | SpotifyToken => Json (VDict [("access_token", VStr "token")])
  | SpotifySearch _ _ =>
      Json (VDict [("artists",
                    VDict [("items", VList [VDict [("id", VStr "5HFk")]])])])
  | SpotifyTopTracks _ (VStr _) =>
      Json (VDict [("tracks",
                    VList [VDict [("name", VStr "Army of the Night")];
                           VDict [("name",
                                   VStr "Demons Are a Girl's Best Friend")]])])
  | _ => NotJson
  end.

(** The concerts page around the month section of two concerts. *)
Definition page_of_two : node :=
  NTag []
    [NTag ["grid-box"; "grid-box-first"; "grid-box-last";
           "grid-box-concerts-list"] [month_of_two]].

(** A month section with one concert whose date label is the bare date,
    without the day of the week before it. *)
Definition month_with_bare_date : node :=
  NTag ["ph-concerts-list"; "is-3col"]
    [entry "01.03.2024" "Powerwolf live" "Gasometer, Wien"].

(** A month section with a date and neither artist nor location. *)
Definition month_with_lone_date : node :=
  NTag ["ph-concerts-list"; "is-3col"]
    [NTag ["ph-concerts-list-col"; "ph-concerts-list-date"]
       [NText "Fr. 01.03.2024"]].

Definition page_with_lone_date : node :=
  NTag []
    [NTag ["grid-box"; "grid-box-first"; "grid-box-last";
           "grid-box-concerts-list"] [month_with_lone_date]].

End Examples.

(* ================================================================== *)
(** * Properties of the string operations *)
(* ================================================================== *)

Section StringFacts.

Lemma prefix_nil_r p : String.prefix p EmptyString = true -> p = EmptyString.
Proof. destruct p; simpl; [reflexivity | discriminate]. Qed.

Lemma prefix_cons a p c s :
  String.prefix (String a p) (String c s) = true ->
  a = c /\ String.prefix p s = true.
Proof.
  simpl. destruct (ascii_dec a c) as [->|]; [auto | discriminate].
Qed.

Lemma prefix_cons_intro c p s :
  String.prefix p s = true -> String.prefix (String c p) (String c s) = true.
Proof.
  intros H. simpl. destruct (ascii_dec c c); [exact H | congruence].
Qed.

Lemma prefix_app p s :
  String.prefix p s = true -> exists r, s = (p ++ r)%string.
Proof.
  revert s. induction p as [|a p IH]; intros s H.
  - exists s. reflexivity.
  - destruct s as [|c s]; [discriminate|].
    apply prefix_cons in H as [-> H].
    destruct (IH _ H) as [r ->]. exists r. reflexivity.
Qed.

Lemma before_cons sep c s :
  PyStr.before sep (String c s)
  = if String.prefix sep (String c s) then EmptyString
    else String c (PyStr.before sep s).
Proof. reflexivity. Qed.

Lemma occurs_cons sep c s :
  PyStr.occurs sep (String c s)
  = String.prefix sep (String c s) || PyStr.occurs sep s.
Proof. reflexivity. Qed.

(** A prefix of the cut string is a prefix of the whole string. *)
Lemma prefix_before sep p s :
  String.prefix p (PyStr.before sep s) = true -> String.prefix p s = true.
Proof.
  revert p. induction s as [|c s IH]; intros p H.
  - exact H.
  - rewrite before_cons in H.
    destruct (String.prefix sep (String c s)) eqn:E.
    + apply prefix_nil_r in H. subst p. reflexivity.
    + destruct p as [|a p]; [reflexivity|].
      apply prefix_cons in H as [-> H].
      apply prefix_cons_intro. apply IH. exact H.
Qed.

Lemma occurs_before sep s :
  String.prefix sep EmptyString = false ->
  PyStr.occurs sep (PyStr.before sep s) = false.
Proof.
  intros Hne. induction s as [|c s IH].
  - exact Hne.
  - rewrite before_cons.
    destruct (String.prefix sep (String c s)) eqn:E.
    + exact Hne.
    + rewrite occurs_cons, IH, orb_false_r.
      destruct (String.prefix sep (String c (PyStr.before sep s))) eqn:E2;
        [|reflexivity].
      assert (String.prefix sep (PyStr.before sep (String c s)) = true) as H.
      { rewrite before_cons, E. exact E2. }
      apply prefix_before in H. congruence.
Qed.

Lemma before_no_occurrence sep s :
  PyStr.occurs sep s = false -> PyStr.before sep s = s.
Proof.
  induction s as [|c s IH]; intros H.
  - reflexivity.
  - rewrite occurs_cons in H.
    apply orb_false_iff in H as [H1 H2].
    rewrite before_cons, H1, (IH H2). reflexivity.
Qed.

Lemma before_occurrence sep s :
  PyStr.occurs sep s = true ->
  exists rest, s = (PyStr.before sep s ++ sep ++ rest)%string.
Proof.
  induction s as [|c s IH]; intros H.
  - apply prefix_nil_r in H. subst sep. exists EmptyString.
    reflexivity.
  - rewrite occurs_cons in H. rewrite before_cons.
    destruct (String.prefix sep (String c s)) eqn:E.
    + apply prefix_app in E as [r ->]. exists r. reflexivity.
    + destruct (IH H) as [r Hr]. exists r.
      change (String c s = String c (PyStr.before sep s ++ sep ++ r)%string).
      rewrite <- Hr. reflexivity.
Qed.

Lemma split_from_cons sep c s :
  PyStr.split_from sep 0 (String c s)
  = if String.prefix sep (String c s)
    then EmptyString :: PyStr.split_from sep (String.length sep - 1) s
    else match PyStr.split_from sep 0 s with
         | p :: ps => String c p :: ps
         | [] => [String c EmptyString]
         end.
Proof. reflexivity. Qed.

(** The first piece of a split is the text before the first separator. *)
Lemma split_head sep s :
  exists ps, PyStr.split sep s = PyStr.before sep s :: ps.
Proof.
  unfold PyStr.split. induction s as [|c s [ps IH]].
  - exists []. reflexivity.
  - rewrite split_from_cons, before_cons.
    destruct (String.prefix sep (String c s)).
    + eexists. reflexivity.
    + rewrite IH. eexists. reflexivity.
Qed.

Lemma index_split_0 sep s :
  PyStr.index (PyStr.split sep s) 0 = Ok (PyStr.before sep s).
Proof.
  destruct (split_head sep s) as [ps ->]. reflexivity.
Qed.

End StringFacts.

(** ** C5: what the artist cleanup keeps *)

(** C5 (as stated, refuted): for the label "Band live in Wien" the stored
    name is "Band", while removing a trailing " live" would leave the label
    unchanged. *)
Lemma artist_text_not_trailing_only :
  WebLogger.artist_text "Band live in Wien" = Ok "Band"
  /\ Spec.remove_trailing " live" "Band live in Wien" = "Band live in Wien"
  /\ WebLogger.artist_text "Band live in Wien"
     <> Ok (Spec.remove_trailing " live" "Band live in Wien").
Proof.
  repeat split; try reflexivity. discriminate.
Qed.

(** C5 (amended): the stored artist name is the label cut at the first
    occurrence of " live": it holds no " live", and either the label holds
    none and is stored unchanged, or the label is the stored name followed by
    " live" and the text that is dropped. *)
Theorem artist_text_cuts_at_first_live (label : string) :
  exists stored,
    WebLogger.artist_text label = Ok stored
    /\ PyStr.occurs " live" stored = false
    /\ ((PyStr.occurs " live" label = false /\ stored = label)
        \/ exists dropped, label = (stored ++ " live" ++ dropped)%string).
Proof.
  exists (PyStr.before " live" label). split; [|split].
  - apply index_split_0.
  - apply occurs_before. reflexivity.
  - destruct (PyStr.occurs " live" label) eqn:E.
    + right. apply before_occurrence. exact E.
    + left. split; [reflexivity | apply before_no_occurrence; exact E].
Qed.

(** ** C9: the artist cleanup is idempotent *)

(** C9: cleaning an already cleaned artist name returns it unchanged. *)
Theorem artist_text_idempotent (label : string) :
  exists stored,
    WebLogger.artist_text label = Ok stored
    /\ WebLogger.artist_text stored = Ok stored.
Proof.
  exists (PyStr.before " live" label). split.
  - apply index_split_0.
  - unfold WebLogger.artist_text. rewrite index_split_0. f_equal.
    apply before_no_occurrence, occurs_before. reflexivity.
Qed.

(* ================================================================== *)
(** * Dates: parsing and formatting *)
(* ================================================================== *)

Section DateFacts.

Lemma digit_of_inv c n :
  Dates.digit_of c = Some n -> n <= 9 /\ c = Dates.digit n.
Proof.
  unfold Dates.digit_of, Dates.digit.
  destruct ((48 <=? nat_of_ascii c) && (nat_of_ascii c <=? 57)) eqn:E;
    [|discriminate].
  apply andb_true_iff in E as [E1 E2].
  apply Nat.leb_le in E1, E2.
  intros H. injection H as <-. split; [lia|].
  replace (48 + (nat_of_ascii c - 48)) with (nat_of_ascii c) by lia.
  symmetry. apply ascii_nat_embedding.
Qed.

Lemma is_missing_length s :
  Dates.is_missing s = true -> String.length s <= 3.
Proof.
  unfold Dates.is_missing, Dates.nat_strings. simpl existsb.
  rewrite !orb_true_iff, !String.eqb_eq.
  intros H.
  repeat match goal with
         | H : _ \/ _ |- _ => destruct H as [H|H]
         end; subst; simpl; solve [lia | discriminate].
Qed.

Lemma pad2_digits a b :
  a <= 9 -> b <= 9 ->
  Dates.pad2 (10 * a + b)
  = String (Dates.digit a) (String (Dates.digit b) EmptyString).
Proof.
  intros Ha Hb. unfold Dates.pad2.
  replace ((10 * a + b) / 10) with a
    by (apply (Nat.div_unique _ 10 a b); lia).
  replace ((10 * a + b) mod 10) with b
    by (apply (Nat.mod_unique _ 10 a b); lia).
  reflexivity.
Qed.

Lemma pad4_digits a b c d :
  a <= 9 -> b <= 9 -> c <= 9 -> d <= 9 ->
  Dates.pad4 (1000 * a + 100 * b + 10 * c + d)
  = String (Dates.digit a) (String (Dates.digit b)
      (String (Dates.digit c) (String (Dates.digit d) EmptyString))).
Proof.
  intros Ha Hb Hc Hd. unfold Dates.pad4.
  set (n := 1000 * a + 100 * b + 10 * c + d).
  assert (n / 1000 = a) as ->
    by (symmetry; apply (Nat.div_unique _ 1000 a (100 * b + 10 * c + d));
        subst n; lia).
  assert (n / 100 = 10 * a + b) as ->
    by (symmetry; apply (Nat.div_unique _ 100 _ (10 * c + d)); subst n; lia).
  assert (n / 10 = 10 * (10 * a + b) + c) as ->
    by (symmetry; apply (Nat.div_unique _ 10 _ d); subst n; lia).
  assert (n mod 10 = d) as ->
    by (symmetry; apply (Nat.mod_unique _ 10 (10 * (10 * a + b) + c) d);
        subst n; lia).
  assert ((10 * a + b) mod 10 = b) as ->
    by (symmetry; apply (Nat.mod_unique _ 10 a b); lia).
  assert ((10 * (10 * a + b) + c) mod 10 = c) as ->
    by (symmetry; apply (Nat.mod_unique _ 10 (10 * a + b) c); lia).
  reflexivity.
Qed.

Lemma after_dot_inv r s : Dates.after_dot r = Some s -> r = String "."%char s.
Proof.
  destruct r as [|c r]; simpl; [discriminate|].
  destruct (Ascii.eqb_spec c "."); [|discriminate].
  intros H. injection H as <-. subst c. reflexivity.
Qed.

(** On two digits [%d] reads both, or leaves a digit where the dot must
    follow. *)
Lemma parse_day_two_digits c1 c2 a b r n r' :
  Dates.digit_of c1 = Some a -> Dates.digit_of c2 = Some b ->
  Dates.parse_day (String c1 (String c2 r)) = Some (n, String "."%char r') ->
  n = 10 * a + b /\ r = String "."%char r'.
Proof.
  intros H1 H2. unfold Dates.parse_day. rewrite H1, H2.
  destruct a as [|[|[|[|a]]]]; try destruct b as [|[|b]]; simpl;
    intros E; try discriminate E; inversion E; subst;
    solve [ split; [lia | reflexivity] | discriminate H2 ].
Qed.

Lemma parse_month_two_digits c1 c2 a b r n r' :
  Dates.digit_of c1 = Some a -> Dates.digit_of c2 = Some b ->
  Dates.parse_month (String c1 (String c2 r)) = Some (n, String "."%char r') ->
  n = 10 * a + b /\ r = String "."%char r'.
Proof.
  intros H1 H2. unfold Dates.parse_month. rewrite H1, H2.
  destruct a as [|[|a]]; try destruct b as [|[|[|b]]]; simpl;
    intros E; try discriminate E; inversion E; subst;
    solve [ split; [lia | reflexivity] | discriminate H2 ].
Qed.

Lemma parse_year_four_digits c1 c2 c3 c4 a b c d r :
  Dates.digit_of c1 = Some a -> Dates.digit_of c2 = Some b ->
  Dates.digit_of c3 = Some c -> Dates.digit_of c4 = Some d ->
  Dates.parse_year (String c1 (String c2 (String c3 (String c4 r))))
  = Some (1000 * a + 100 * b + 10 * c + d, r).
Proof.
  intros H1 H2 H3 H4. unfold Dates.parse_year. rewrite H1, H2, H3, H4.
  reflexivity.
Qed.

Lemma zero_padded_inv s :
  Dates.zero_padded s = true ->
  exists d1 d2 m1 m2 y1 y2 y3 y4 a b c e f g h i,
    s = String d1 (String d2 (String "." (String m1 (String m2 (String "."
          (String y1 (String y2 (String y3 (String y4 EmptyString)))))))))
    /\ Dates.digit_of d1 = Some a /\ Dates.digit_of d2 = Some b
    /\ Dates.digit_of m1 = Some c /\ Dates.digit_of m2 = Some e
    /\ Dates.digit_of y1 = Some f /\ Dates.digit_of y2 = Some g
    /\ Dates.digit_of y3 = Some h /\ Dates.digit_of y4 = Some i.
Proof.
  do 10 (destruct s as [|? s]; [discriminate|]).
  destruct s; [|discriminate].
  unfold Dates.zero_padded. simpl forallb.
  rewrite !andb_true_iff, !Ascii.eqb_eq.
  intros H. decompose [and] H. subst.
  repeat match goal with
         | H : match Dates.digit_of ?c with _ => _ end = true |- _ =>
             destruct (Dates.digit_of c) eqn:?; [clear H | discriminate H]
         end.
  repeat eexists; eassumption.
Qed.

End DateFacts.

Section DateFormatFacts.

Lemma digit_of_digit n : n <= 9 -> Dates.digit_of (Dates.digit n) = Some n.
Proof.
  intros H. do 10 (destruct n as [|n]; [reflexivity|]). lia.
Qed.

Lemma parse_day_pad2 dd rest :
  1 <= dd <= 31 ->
  Dates.parse_day (Dates.pad2 dd ++ rest) = Some (dd, rest).
Proof.
  intros H. do 32 (destruct dd as [|dd]; [try lia; reflexivity|]). lia.
Qed.

Lemma parse_month_pad2 m rest :
  1 <= m <= 12 ->
  Dates.parse_month (Dates.pad2 m ++ rest) = Some (m, rest).
Proof.
  intros H. do 13 (destruct m as [|m]; [try lia; reflexivity|]). lia.
Qed.

Lemma four_digits y :
  1000 * (y / 1000) + 100 * ((y / 100) mod 10) + 10 * ((y / 10) mod 10)
  + y mod 10 = y.
Proof.
  assert (y / 100 = y / 10 / 10) as ->
    by (rewrite Nat.Div0.div_div; reflexivity).
  assert (y / 1000 = y / 10 / 10 / 10) as ->
    by (rewrite !Nat.Div0.div_div; reflexivity).
  pose proof (Nat.div_mod_eq y 10) as H1.
  pose proof (Nat.div_mod_eq (y / 10) 10) as H2.
  pose proof (Nat.div_mod_eq (y / 10 / 10) 10) as H3.
  lia.
Qed.

Lemma parse_year_pad4 y :
  y / 1000 <= 9 ->
  Dates.parse_year (Dates.pad4 y) = Some (y, EmptyString).
Proof.
  intros H. unfold Dates.pad4.
  rewrite (parse_year_four_digits _ _ _ _ (y / 1000) ((y / 100) mod 10)
             ((y / 10) mod 10) (y mod 10)).
  - rewrite four_digits. reflexivity.
  - apply digit_of_digit. exact H.
  - apply digit_of_digit.
    pose proof (Nat.mod_upper_bound (y / 100) 10). lia.
  - apply digit_of_digit.
    pose proof (Nat.mod_upper_bound (y / 10) 10). lia.
  - apply digit_of_digit.
    pose proof (Nat.mod_upper_bound y 10). lia.
Qed.

Lemma in_bounds_year d : Dates.in_bounds d = true -> year d <= 2262.
Proof.
  unfold Dates.in_bounds, Dates.date_leb. cbn [year month day].
  rewrite !andb_true_iff, !orb_true_iff, !andb_true_iff.
  rewrite !Nat.ltb_lt, !Nat.eqb_eq. intros [_ [H|[H _]]]; lia.
Qed.

(** Every calendar day a Timestamp can hold is read back from its
    [dd.mm.yyyy] form. *)
Lemma to_datetime_strftime (d : date) :
  1 <= month d <= 12 ->
  1 <= day d <= Dates.days_in_month (year d) (month d) ->
  Dates.in_bounds d = true ->
  Dates.zero_padded (Dates.strftime d) = true
  /\ Dates.to_datetime (Dates.strftime d) = Ok (Some d).
Proof.
  destruct d as [y m dd]. cbn [year month day]. intros Hm Hd Hb.
  pose proof (in_bounds_year _ Hb) as Hy. cbn [year] in Hy.
  assert (y / 1000 <= 9) as Hy1000.
  { assert (y / 1000 < 10) by (apply Nat.Div0.div_lt_upper_bound; lia).
    lia. }
  assert (dd <= 31) as Hd31.
  { unfold Dates.days_in_month in Hd.
    do 13 (destruct m as [|m]; [try destruct (Dates.leap y); lia|]). lia. }
  split.
  - unfold Dates.strftime, Dates.pad2, Dates.pad4, Dates.zero_padded.
    cbn [year month day String.append forallb].
    rewrite !digit_of_digit; [reflexivity|..].
    all: match goal with
         | |- ?a mod 10 <= 9 => pose proof (Nat.mod_upper_bound a 10); lia
         | |- ?a / 1000 <= 9 => exact Hy1000
         | |- ?a / 10 <= 9 =>
             assert (a / 10 < 10)
               by (apply Nat.Div0.div_lt_upper_bound; lia); lia
         end.
  - unfold Dates.to_datetime.
    destruct (Dates.is_missing _) eqn:Emiss.
    { apply is_missing_length in Emiss. exfalso. revert Emiss.
      unfold Dates.strftime, Dates.pad2. cbn [String.append String.length].
      lia. }
    unfold Dates.strftime. cbn [year month day].
    rewrite parse_day_pad2 by lia. cbn [Dates.after_dot String.append].
    change (Ascii.eqb "." ".") with true. cbv iota.
    rewrite parse_month_pad2 by lia. cbn [Dates.after_dot String.append].
    change (Ascii.eqb "." ".") with true. cbv iota.
    rewrite parse_year_pad4 by exact Hy1000.
    rewrite Hb. replace (dd <=? Dates.days_in_month y m) with true
      by (symmetry; apply Nat.leb_le; lia).
    reflexivity.
Qed.

(** Whatever day a zero-padded string is parsed to, formatting that day
    gives the string back. *)
Lemma parsed_date_formats_back (s : string) (d : date) :
  Dates.zero_padded s = true ->
  Dates.to_datetime s = Ok (Some d) ->
  Dates.strftime d = s.
Proof.
  intros Hz Hp.
  destruct (zero_padded_inv s Hz)
    as (d1 & d2 & m1 & m2 & y1 & y2 & y3 & y4 & a & b & c & e & f & g & h & i
        & -> & Ha & Hb & Hc & He & Hf & Hg & Hh & Hi).
  unfold Dates.to_datetime in Hp.
  destruct (Dates.is_missing _) eqn:Hm.
  { apply is_missing_length in Hm. simpl in Hm. lia. }
  destruct (Dates.parse_day _) as [[dd r]|] eqn:Ed; [|discriminate].
  destruct (Dates.after_dot r) as [s1|] eqn:Er; [|discriminate].
  apply after_dot_inv in Er. subst r.
  apply (parse_day_two_digits _ _ _ _ _ _ _ Ha Hb) in Ed as [-> Er].
  injection Er as <-.
  destruct (Dates.parse_month _) as [[mm r]|] eqn:Em; [|discriminate].
  destruct (Dates.after_dot r) as [s2|] eqn:Er; [|discriminate].
  apply after_dot_inv in Er. subst r.
  apply (parse_month_two_digits _ _ _ _ _ _ _ Hc He) in Em as [-> Er].
  injection Er as <-.
  rewrite (parse_year_four_digits _ _ _ _ _ _ _ _ _ Hf Hg Hh Hi) in Hp.
  destruct (_ && _); [|discriminate].
  replace d with (mkDate (1000 * f + 100 * g + 10 * h + i) (10 * c + e)
                    (10 * a + b)) by congruence.
  apply digit_of_inv in Ha as [? ->], Hb as [? ->], Hc as [? ->],
    He as [? ->], Hf as [? ->], Hg as [? ->], Hh as [? ->], Hi as [? ->].
  unfold Dates.strftime. cbn [year month day].
  rewrite !pad2_digits, pad4_digits by assumption.
  reflexivity.
Qed.

End DateFormatFacts.

(** ** C8: parsing and formatting a date round-trips *)

(** C8 (as stated, refuted): "01.01.1600" is a valid zero-padded dd.mm.yyyy
    string, and it is not parsed: the day lies before the first one that a
    nanosecond Timestamp holds, and [to_datetime] raises. *)
Lemma date_before_timestamp_range_is_rejected :
  Dates.zero_padded "01.01.1600" = true
  /\ Spec.day_named "01.01.1600" = Some (mkDate 1600 1 1)
  /\ Spec.on_calendar (mkDate 1600 1 1) = true
  /\ Dates.to_datetime "01.01.1600" = Raise ValueError.
Proof. repeat split. Qed.

(** C8 (amended): a zero-padded dd.mm.yyyy string that names a day of the
    calendar from 22.09.1677 to 11.04.2262 is parsed, to that day, and
    formatting the day gives the string back. *)
Theorem date_round_trip_in_range (s : string) (d : date) :
  Dates.zero_padded s = true ->
  Spec.day_named s = Some d ->
  Spec.on_calendar d = true ->
  Dates.in_bounds d = true ->
  Dates.to_datetime s = Ok (Some d) /\ Dates.strftime d = s.
Proof.
  intros Hz Hn Hc Hb.
  destruct (zero_padded_inv s Hz)
    as (d1 & d2 & m1 & m2 & y1 & y2 & y3 & y4 & a & b & c & e & f & g & h & i
        & -> & Ha & Hb' & Hc' & He & Hf & Hg & Hh & Hi).
  unfold Spec.day_named in Hn.
  rewrite Ha, Hb', Hc', He, Hf, Hg, Hh, Hi in Hn. injection Hn as <-.
  assert (Dates.strftime
            (mkDate (1000 * f + 100 * g + 10 * h + i) (10 * c + e)
               (10 * a + b))
          = String d1 (String d2 (String "." (String m1 (String m2
              (String "." (String y1 (String y2 (String y3
                 (String y4 EmptyString)))))))))) as Hs.
  { apply digit_of_inv in Ha as [? ->], Hb' as [? ->], Hc' as [? ->],
      He as [? ->], Hf as [? ->], Hg as [? ->], Hh as [? ->], Hi as [? ->].
    unfold Dates.strftime. cbn [year month day].
    rewrite !pad2_digits, pad4_digits by assumption.
    reflexivity. }
  split; [|exact Hs]. rewrite <- Hs.
  unfold Spec.on_calendar in Hc. cbn [year month day] in Hc.
  rewrite !andb_true_iff, !Nat.leb_le in Hc.
  destruct Hc as [[[Hm1 Hm2] Hd1] Hd2].
  apply to_datetime_strftime; cbn [year month day]; [lia | lia | exact Hb].
Qed.

(** The round trip on 09.02.2024. *)
Lemma date_round_trip_in_range_witness :
  Dates.to_datetime "09.02.2024" = Ok (Some (mkDate 2024 2 9))
  /\ Dates.strftime (mkDate 2024 2 9) = "09.02.2024".
Proof.
  apply (date_round_trip_in_range "09.02.2024" (mkDate 2024 2 9));
    reflexivity.
Defined.

(* ================================================================== *)
(** * The scraper's lists *)
(* ================================================================== *)

Section ScraperFacts.

Lemma append_all_ok clean found : forall lst xs w,
  map (fun x => clean (Soup.text x)) found = map Ok xs ->
  WebLogger.append_all lst found clean w = (Ok (lst ++ xs), w).
Proof.
  unfold WebLogger.append_all.
  induction found as [|x found IH]; intros lst xs w H.
  - destruct xs; [|discriminate]. rewrite app_nil_r. reflexivity.
  - destruct xs as [|y xs]; [discriminate|].
    injection H as Hx H. simpl for_fold.
    unfold bind at 1. unfold bind at 1. unfold lift. rewrite Hx.
    unfold ret. rewrite (IH _ xs w H). rewrite <- app_assoc. reflexivity.
Qed.

Lemma total_clean_map (clean : string -> result string) f found :
  (forall s, clean s = Ok (f s)) ->
  map (fun x => clean (Soup.text x)) found
  = map Ok (map (fun x => f (Soup.text x)) found).
Proof.
  intros H. rewrite map_map. apply map_ext. intros x. apply H.
Qed.

Lemma ok_clean_map (clean : string -> result string) found :
  Forall (fun x => is_ok (clean (Soup.text x)) = true) found ->
  exists xs, map (fun x => clean (Soup.text x)) found = map Ok xs.
Proof.
  induction 1 as [|x found Hx _ [xs IH]].
  - exists []. reflexivity.
  - destruct (clean (Soup.text x)) as [y|] eqn:E; [|discriminate].
    exists (y :: xs). simpl. rewrite E, IH. reflexivity.
Qed.

Lemma map_combine3 {A B C D} (f : A -> D) (la : list A) (lb : list B)
    (lc : list C) :
  List.length la = List.length lb -> List.length lb = List.length lc ->
  map (fun e => f (fst (fst e))) (combine (combine la lb) lc) = map f la.
Proof.
  revert lb lc. induction la as [|a la IH]; intros [|b lb] [|c lc] H1 H2;
    try discriminate; [reflexivity|].
  simpl. f_equal. apply IH; simpl in *; lia.
Qed.

Lemma map_combine3_mid {A B C D} (f : B -> D) (la : list A) (lb : list B)
    (lc : list C) :
  List.length la = List.length lb -> List.length lb = List.length lc ->
  map (fun e => f (snd (fst e))) (combine (combine la lb) lc) = map f lb.
Proof.
  revert lb lc. induction la as [|a la IH]; intros [|b lb] [|c lc] H1 H2;
    try discriminate; [reflexivity|].
  simpl. f_equal. apply IH; simpl in *; lia.
Qed.

Lemma map_combine3_last {A B C D} (f : C -> D) (la : list A) (lb : list B)
    (lc : list C) :
  List.length la = List.length lb -> List.length lb = List.length lc ->
  map (fun e => f (snd e)) (combine (combine la lb) lc) = map f lc.
Proof.
  revert lb lc. induction la as [|a la IH]; intros [|b lb] [|c lc] H1 H2;
    try discriminate; [reflexivity|].
  simpl. f_equal. apply IH; simpl in *; lia.
Qed.


Lemma collect_month_ok month dates artists locations w :
  WebLogger.well_formed_month month ->
  exists ds,
    WebLogger.collect_month (dates, artists, locations) month w
    = (Ok (dates ++ ds,
           artists ++ map (fun x => PyStr.before " live" (Soup.text x))
                        (Soup.find_all WebLogger.artist_class month),
           locations ++ map (fun x => PyStr.before "," (Soup.text x))
                          (Soup.find_all WebLogger.location_class month)), w)
    /\ map (fun x => WebLogger.date_text (Soup.text x))
         (Soup.find_all WebLogger.date_class month) = map Ok ds.
Proof.
  intros (Hda & Hal & Hok).
  destruct (ok_clean_map _ _ Hok) as [ds Hds].
  exists ds. split; [|exact Hds].
  unfold WebLogger.collect_month, bind.
  rewrite (append_all_ok _ _ dates ds w Hds).
  rewrite (append_all_ok WebLogger.artist_text _ artists _ w
             (total_clean_map _ _ _ (index_split_0 " live"))).
  rewrite (append_all_ok WebLogger.location_text _ locations _ w
             (total_clean_map _ _ _ (index_split_0 ","))).
  reflexivity.
Qed.

(** The loop over the months, from any three lists. *)
Lemma collect_from months : forall dates artists locations w,
  Forall WebLogger.well_formed_month months ->
  exists ds ars ls,
    for_fold months (dates, artists, locations) WebLogger.collect_month w
    = (Ok (dates ++ ds, artists ++ ars, locations ++ ls), w)
    /\ map Ok ds
       = map (fun e => WebLogger.date_text (Soup.text (fst (fst e))))
           (WebLogger.entries months)
    /\ map Ok ars
       = map (fun e => WebLogger.artist_text (Soup.text (snd (fst e))))
           (WebLogger.entries months)
    /\ map Ok ls
       = map (fun e => WebLogger.location_text (Soup.text (snd e)))
           (WebLogger.entries months).
Proof.
  induction months as [|month months IH]; intros dates artists locations w H.
  - exists [], [], []. rewrite !app_nil_r. repeat split; reflexivity.
  - inversion H as [|? ? Hwf Hrest]; subst.
    destruct (collect_month_ok month dates artists locations w Hwf)
      as (ds & Hstep & Hds).
    destruct Hwf as (Hda & Hal & _).
    match type of Hstep with
    | _ = (Ok (?d, ?a, ?l), _) =>
        destruct (IH d a l w Hrest)
          as (ds' & ars' & ls' & Hrun & Hd & Ha & Hl)
    end.
    eexists (ds ++ ds'), (_ ++ ars'), (_ ++ ls').
    split; [|split; [|split]].
    + cbn [for_fold]. unfold bind. rewrite Hstep, Hrun.
      rewrite (app_assoc dates ds ds'), (app_assoc artists _ ars'),
        (app_assoc locations _ ls'). reflexivity.
    + unfold WebLogger.entries. cbn [flat_map]. rewrite !map_app.
      f_equal; [|exact Hd].
      unfold WebLogger.month_entries.
      rewrite (map_combine3 (fun x => WebLogger.date_text (Soup.text x)))
        by assumption.
      symmetry. exact Hds.
    + unfold WebLogger.entries. cbn [flat_map]. rewrite !map_app.
      f_equal; [|exact Ha].
      unfold WebLogger.month_entries.
      rewrite (map_combine3_mid
                 (fun x => WebLogger.artist_text (Soup.text x)))
        by assumption.
      rewrite map_map. apply map_ext. intros x. symmetry.
      apply index_split_0.
    + unfold WebLogger.entries. cbn [flat_map]. rewrite !map_app.
      f_equal; [|exact Hl].
      unfold WebLogger.month_entries.
      rewrite (map_combine3_last
                 (fun x => WebLogger.location_text (Soup.text x)))
        by assumption.
      rewrite map_map. apply map_ext. intros x. symmetry.
      apply index_split_0.
Qed.

End ScraperFacts.

(** ** C7: the three lists are aligned *)

(** C7 (as stated, refuted): a month section with as many date as artist as
    location elements, whose date label is the bare date "01.03.2024": the
    label has no second word, [split(' ')[1]] raises [IndexError], and no
    list is built. *)
Lemma collect_lists_fails_on_bare_date :
  Spec.equal_counts Examples.month_with_bare_date
  /\ WebLogger.date_text "01.03.2024" = Raise IndexError
  /\ WebLogger.collect_lists [Examples.month_with_bare_date]
       Examples.fresh_world
     = (Raise IndexError, Examples.fresh_world).
Proof.
  split; [split; reflexivity|]. split; reflexivity.
Qed.

(** C7 (amended): on markup where each month section holds as many date as
    artist as location elements and every date label has a second word, the
    month loop returns three lists of the length of the entries, and the
    i-th date, artist and location are the cleaned labels of the i-th entry,
    in source order. *)
Theorem collect_lists_rowwise (months : list node) (w : world) :
  Forall WebLogger.well_formed_month months ->
  exists dates artists locations,
    WebLogger.collect_lists months w = (Ok (dates, artists, locations), w)
    /\ List.length dates = List.length (WebLogger.entries months)
    /\ List.length artists = List.length (WebLogger.entries months)
    /\ List.length locations = List.length (WebLogger.entries months)
    /\ map Ok dates
       = map (fun e => WebLogger.date_text (Soup.text (fst (fst e))))
           (WebLogger.entries months)
    /\ map Ok artists
       = map (fun e => WebLogger.artist_text (Soup.text (snd (fst e))))
           (WebLogger.entries months)
    /\ map Ok locations
       = map (fun e => WebLogger.location_text (Soup.text (snd e)))
           (WebLogger.entries months).
Proof.
  intros H.
  destruct (collect_from months [] [] [] w H)
    as (ds & ars & ls & Hrun & Hd & Ha & Hl).
  exists ds, ars, ls. split; [exact Hrun|].
  repeat split; try assumption.
  - rewrite <- (length_map Ok ds), Hd. apply length_map.
  - rewrite <- (length_map Ok ars), Ha. apply length_map.
  - rewrite <- (length_map Ok ls), Hl. apply length_map.
Qed.

(** The alignment on a page with one month of two concerts. *)
Lemma collect_lists_rowwise_witness :
  Forall WebLogger.well_formed_month [Examples.month_of_two]
  /\ exists dates artists locations,
       WebLogger.collect_lists [Examples.month_of_two] Examples.fresh_world
       = (Ok (dates, artists, locations), Examples.fresh_world)
       /\ List.length dates
          = List.length (WebLogger.entries [Examples.month_of_two])
       /\ List.length artists
          = List.length (WebLogger.entries [Examples.month_of_two])
       /\ List.length locations
          = List.length (WebLogger.entries [Examples.month_of_two])
       /\ map Ok dates
          = map (fun e => WebLogger.date_text (Soup.text (fst (fst e))))
              (WebLogger.entries [Examples.month_of_two])
       /\ map Ok artists
          = map (fun e => WebLogger.artist_text (Soup.text (snd (fst e))))
              (WebLogger.entries [Examples.month_of_two])
       /\ map Ok locations
          = map (fun e => WebLogger.location_text (Soup.text (snd e)))
              (WebLogger.entries [Examples.month_of_two]).
Proof.
  assert (Forall WebLogger.well_formed_month [Examples.month_of_two]) as H.
  { repeat constructor. }
  split; [exact H|].
  apply (collect_lists_rowwise [Examples.month_of_two] Examples.fresh_world H).
Defined.

(* ================================================================== *)
(** * The MusicBrainz and Spotify adapters *)
(* ================================================================== *)

Section ApiFacts.

Variable net : network.

Lemma album_loop name : forall groups fields albums w,
  map Payload.credited_title groups = map Some fields ->
  for_fold groups albums (fun albums release_group =>
      credit <- lift (Py.getitem release_group "artist-credit") ;;
      first <- lift (Py.getitem0 credit) ;;
      credited <- lift (Py.getitem first "name") ;;
      if Py.eq_str credited name then
        title <- lift (Py.getitem release_group "title") ;;
        ret (albums ++ [title])
      else ret albums) w
  = (Ok (albums
         ++ map snd (filter (fun f => String.eqb (fst f) name) fields)), w).
Proof.
  induction groups as [|g groups IH]; intros fields albums w H.
  - destruct fields; [|discriminate]. simpl. rewrite app_nil_r. reflexivity.
  - destruct fields as [|[n t] fields]; [discriminate|].
    injection H as Hg H.
    unfold Payload.credited_title in Hg.
    destruct g as [| | | | | |g]; try discriminate.
    destruct (Py.lookup "artist-credit" g) as [[| | | | |[|[| | | | | |c] ?]|]|]
      eqn:Ec; try discriminate.
    destruct (Py.lookup "title" g) as [t'|] eqn:Et; [|discriminate].
    destruct (Py.lookup "name" c) as [[| | | |n'| |]|] eqn:En;
      try discriminate.
    injection Hg as -> ->.
    cbn [for_fold]. unfold bind at 1. unfold bind at 1.
    unfold lift at 1. unfold Py.getitem at 1. rewrite Ec.
    unfold bind at 1. unfold lift at 1. cbn [Py.getitem0].
    unfold bind at 1. unfold lift at 1. unfold Py.getitem at 1. rewrite En.
    cbn [Py.eq_str filter fst].
    destruct (String.eqb n name).
    + unfold bind at 1. unfold lift at 1. unfold Py.getitem at 1. rewrite Et.
      unfold ret at 1. rewrite (IH fields _ w H).
      cbn [map snd]. rewrite <- (app_assoc albums [t]). reflexivity.
    + unfold ret at 1. apply (IH fields _ w H).
Qed.

End ApiFacts.

(** ** C6: the album filter *)

(** C6: on a well-formed release-group payload the album list holds exactly
    the titles of the release-groups whose first credited artist name equals
    the queried name, in payload order. *)
Theorem get_album_names_exact_credit (net : network) (name : string)
    (payload : value) (groups : list value) (fields : list (string * value))
    (w : world) :
  net (ReleaseGroupSearch name) = Json payload ->
  Payload.release_groups payload = Some groups ->
  map Payload.credited_title groups = map Some fields ->
  ApiLogger.get_album_names net name w
  = (Ok (map snd (filter (fun f => String.eqb (fst f) name) fields)), w).
Proof.
  intros Hnet Hp Hf.
  unfold Payload.release_groups in Hp.
  destruct payload as [| | | | | |d]; try discriminate.
  destruct (Py.lookup "release-groups" d) as [[| | | | |gs|]|] eqn:Ed;
    try discriminate.
  injection Hp as ->.
  unfold ApiLogger.get_album_names, ApiLogger.api_request. rewrite Hnet.
  unfold bind at 1. unfold ret at 1.
  unfold bind at 1. unfold lift at 1. unfold Py.contains. rewrite Ed.
  unfold bind at 1. unfold lift at 1. unfold Py.getitem at 1. rewrite Ed.
  unfold bind at 1. unfold lift at 1. cbn [Py.iter].
  apply (album_loop name groups fields [] w Hf).
Qed.

(** Results credited to Artist A and Artist B: querying Artist A returns only
    Artist A's titles. *)
Lemma get_album_names_exact_credit_witness :
  (fun _ => Json Examples.two_artists_payload) (ReleaseGroupSearch "Artist A")
  = Json Examples.two_artists_payload
  /\ ApiLogger.get_album_names (fun _ => Json Examples.two_artists_payload)
       "Artist A" Examples.fresh_world
     = (Ok [VStr "First"; VStr "Second"], Examples.fresh_world).
Proof.
  split; [reflexivity|].
  apply (get_album_names_exact_credit
           (fun _ => Json Examples.two_artists_payload) "Artist A"
           Examples.two_artists_payload
           [Examples.release_group "Artist A" "First";
            Examples.release_group "Artist B" "Other";
            Examples.release_group "Artist A" "Second"]
           [("Artist A", VStr "First"); ("Artist B", VStr "Other");
            ("Artist A", VStr "Second")]
           Examples.fresh_world); reflexivity.
Defined.

(** ** C2: the id lookup without a connection *)

(** A search without results gives None. *)
Lemma get_artist_id_no_results net name d w :
  net (ArtistSearch name) = Json (VDict d) ->
  Py.lookup "artists" d = Some (VList []) ->
  ApiLogger.get_artist_id net name w = (Ok VNone, w).
Proof.
  intros Hnet Hd. unfold ApiLogger.get_artist_id, ApiLogger.api_request.
  rewrite Hnet. unfold bind, ret, lift, Py.contains, Py.getitem.
  rewrite Hd. reflexivity.
Qed.

(** A JSON object without ['artists'] gives None. *)
Lemma get_artist_id_missing_key net name d w :
  net (ArtistSearch name) = Json (VDict d) ->
  Py.lookup "artists" d = None ->
  ApiLogger.get_artist_id net name w = (Ok VNone, w).
Proof.
  intros Hnet Hd. unfold ApiLogger.get_artist_id, ApiLogger.api_request.
  rewrite Hnet. unfold bind, ret, lift, Py.contains.
  rewrite Hd. reflexivity.
Qed.

(** C2 (the code's behaviour): when the request raises a connection error,
    [api_request] reports it and returns None, and [get_artist_id] then
    raises [TypeError] on the membership test instead of returning None. *)
Theorem get_artist_id_raises_without_connection (net : network)
    (name : string) (w : world) :
  net (ArtistSearch name) = NoConnection ->
  ApiLogger.get_artist_id net name w
  = (Raise TypeError,
     mkWorld (console w ++ [ConnectionToApiFailed]) (conn w)).
Proof.
  intros Hnet. unfold ApiLogger.get_artist_id, ApiLogger.api_request.
  rewrite Hnet. reflexivity.
Qed.

(** The failing input: the lookup of Powerwolf while offline. *)
Lemma get_artist_id_raises_without_connection_witness :
  ApiLogger.get_artist_id Examples.offline "Powerwolf" Examples.fresh_world
  = (Raise TypeError,
     mkWorld [ConnectionToApiFailed] (conn Examples.fresh_world)).
Proof.
  apply (get_artist_id_raises_without_connection Examples.offline
           "Powerwolf" Examples.fresh_world).
  reflexivity.
Defined.

(** ** C4: top tracks of an artist the catalog does not know *)

(** When the search finds an artist, the header and one line per track are
    printed. *)
Lemma top_tracks_prints_found_tracks :
  Main.top_tracks Examples.one_match_catalog "Powerwolf" Examples.fresh_world
  = (Ok tt,
     mkWorld [TopTracksHeader "Powerwolf";
              TrackLine 1 (VStr "Army of the Night");
              TrackLine 2 (VStr "Demons Are a Girl's Best Friend")]
       (conn Examples.fresh_world)).
Proof. reflexivity. Qed.

(** C4 (the code's behaviour): when the search finds no artist,
    [search_artist] returns None, the top tracks of the id None are
    requested, and an answer without ['tracks'] makes the step raise
    [KeyError]; nothing is printed. *)
Theorem top_tracks_raises_without_match (net : network)
    (input_artist token : string)
    (credentials found answer : list (string * value)) (w : world) :
  net SpotifyToken = Json (VDict credentials) ->
  Py.lookup "access_token" credentials = Some (VStr token) ->
  net (SpotifySearch token input_artist) = Json (VDict found) ->
  Py.lookup "artists" found = Some (VDict [("items", VList [])]) ->
  net (SpotifyTopTracks token VNone) = Json (VDict answer) ->
  Py.lookup "tracks" answer = None ->
  ApiLogger.search_artist net token input_artist w = (Ok VNone, w)
  /\ Main.top_tracks net input_artist w = (Raise KeyError, w).
Proof.
  intros Htoken Hcred Hsearch Hfound Htracks Hanswer.
  assert (ApiLogger.search_artist net token input_artist w = (Ok VNone, w))
    as Hnone.
  { unfold ApiLogger.search_artist, ApiLogger.spotify_request.
    rewrite Hsearch. unfold bind, ret, lift, Py.getitem. rewrite Hfound.
    reflexivity. }
  split; [exact Hnone|].
  unfold Main.top_tracks. unfold bind at 1.
  unfold ApiLogger.SpotifyAPI, ApiLogger.spotify_request. rewrite Htoken.
  unfold bind at 1. unfold ret at 1.
  unfold bind at 1. unfold lift at 1, Py.getitem at 1. rewrite Hcred.
  unfold ret at 1. unfold bind at 1. rewrite Hnone.
  unfold bind at 1. unfold ApiLogger.get_songs, ApiLogger.spotify_request.
  rewrite Htracks. unfold bind, ret, lift, Py.getitem. rewrite Hanswer.
  reflexivity.
Qed.

(** The failing input: a name the catalog does not know. *)
Lemma top_tracks_raises_without_match_witness :
  ApiLogger.search_artist Examples.no_match_catalog "token" "xyzzy"
    Examples.fresh_world
  = (Ok VNone, Examples.fresh_world)
  /\ Main.top_tracks Examples.no_match_catalog "xyzzy" Examples.fresh_world
     = (Raise KeyError, Examples.fresh_world).
Proof.
  apply (top_tracks_raises_without_match Examples.no_match_catalog
           "xyzzy" "token" [("access_token", VStr "token")]
           [("artists", VDict [("items", VList [])])]
           [("error", VDict [("status", VInt 400);
                             ("message", VStr "Invalid base62 id")])]
           Examples.fresh_world); reflexivity.
Defined.

(* ================================================================== *)
(** * The repository *)
(* ================================================================== *)

Section RepositoryFacts.

Import Repo.

(** ** From the monadic loops to table transformers *)

Lemma reaches_refl w : reaches w (current (conn w)) w.
Proof. repeat split. Qed.

Lemma reaches_trans w t1 w1 t w' :
  reaches w t1 w1 -> reaches w1 t w' -> reaches w t w'.
Proof.
  intros (H1 & _ & H3) (H1' & H2' & H3'). repeat split; congruence.
Qed.

Lemma execute_ok key stmt w t :
  stmt (current (conn w)) = Ok t ->
  exists w', SafeData.execute key stmt w = (Ok tt, w') /\ reaches w t w'.
Proof.
  intros H. exists (set_current w t). unfold SafeData.execute. rewrite H.
  repeat split.
Qed.

Lemma for_each_run {A} (body : A -> M unit) stmt :
  (forall x w t, stmt x (current (conn w)) = Ok t ->
                 exists w', body x w = (Ok tt, w') /\ reaches w t w') ->
  forall l w t,
    run_all stmt l (current (conn w)) = Ok t ->
    exists w', for_each l body w = (Ok tt, w') /\ reaches w t w'.
Proof.
  intros Hbody. induction l as [|x l IH]; intros w t H.
  - simpl in H. injection H as <-. exists w.
    split; [reflexivity | apply reaches_refl].
  - simpl in H. destruct (stmt x (current (conn w))) as [t1|] eqn:E;
      [|discriminate].
    destruct (Hbody x w t1 E) as (w1 & Hstep & Hw1).
    assert (current (conn w1) = t1) as Hcur by apply Hw1.
    rewrite <- Hcur in H. destruct (IH w1 t H) as (w' & Hrest & Hw').
    exists w'. split; [|exact (reaches_trans _ _ _ _ _ Hw1 Hw')].
    cbn [for_each]. unfold bind. rewrite Hstep. exact Hrest.
Qed.

Lemma then_commit (loop : M unit) w t :
  (exists w', loop w = (Ok tt, w') /\ reaches w t w') ->
  (loop ;;; SafeData.commit) w = (Ok tt, set_committed w t).
Proof.
  intros (w' & H & Hc & Ht & Hs). unfold bind. rewrite H.
  unfold SafeData.commit, set_committed. rewrite Hc, Ht, Hs. reflexivity.
Qed.

Lemma fill_locations_run lst w t :
  run_all SafeData.insert_location lst (current (conn w)) = Ok t ->
  SafeData.fill_locations_table lst w = (Ok tt, set_committed w t).
Proof.
  intros H. apply then_commit.
  apply (for_each_run _ SafeData.insert_location); [|exact H].
  intros x w' t'. apply execute_ok.
Qed.

Lemma fill_areas_run lst w t :
  run_all SafeData.insert_area lst (current (conn w)) = Ok t ->
  SafeData.fill_areas_table lst w = (Ok tt, set_committed w t).
Proof.
  intros H. apply then_commit.
  apply (for_each_run _ SafeData.insert_area); [|exact H].
  intros x w' t'. apply execute_ok.
Qed.

Lemma fill_artists_run dicti w t :
  run_all artist_stmt dicti (current (conn w)) = Ok t ->
  SafeData.fill_artists_table dicti w = (Ok tt, set_committed w t).
Proof.
  intros H. apply then_commit.
  apply (for_each_run _ artist_stmt); [|exact H].
  intros [artist [area mb]] w' t' E. unfold bind, SafeData.fetchone.
  apply execute_ok. exact E.
Qed.

Lemma fill_concerts_run df w t :
  run_all concert_stmt df (current (conn w)) = Ok t ->
  SafeData.fill_concerts_table df w = (Ok tt, set_committed w t).
Proof.
  intros H. apply then_commit.
  apply (for_each_run _ concert_stmt); [|exact H].
  intros row w' t' E. unfold bind, SafeData.fetchone.
  apply execute_ok. exact E.
Qed.

Lemma albums_body_run artist albums w t :
  run_all
    (SafeData.insert_album
       (SafeData.select_artist_id artist (current (conn w))))
    albums (current (conn w)) = Ok t ->
  exists w',
    match albums with
    | [] => ret tt
    | _ =>
        for_each albums (fun album =>
          SafeData.execute albums_album_id_seq
            (SafeData.insert_album
               (SafeData.select_artist_id artist (current (conn w))) album))
    end w = (Ok tt, w')
    /\ reaches w t w'.
Proof.
  intros E. destruct albums as [|album albums].
  - simpl in E. injection E as <-. exists w.
    split; [reflexivity | apply reaches_refl].
  - apply (for_each_run _
             (SafeData.insert_album
                (SafeData.select_artist_id artist (current (conn w))))
             (fun x w0 t0 => execute_ok _ _ w0 t0) _ w t E).
Qed.

Lemma fill_albums_run dicti w t :
  run_all album_stmt dicti (current (conn w)) = Ok t ->
  SafeData.fill_albums_table dicti w = (Ok tt, set_committed w t).
Proof.
  intros H. apply then_commit.
  apply (for_each_run _ album_stmt); [|exact H].
  intros [artist albums] w' t' E. unfold bind, SafeData.fetchone.
  apply albums_body_run. exact E.
Qed.


(** ** The statements, when their constraints hold *)

Lemma varchar255_fits s : fits s -> SafeData.varchar255 s = Ok s.
Proof.
  unfold fits, SafeData.varchar255. intros H.
  apply Nat.leb_le in H. rewrite H. reflexivity.
Qed.

Lemma varchar255_null_fits s :
  fits_null s -> SafeData.varchar255_null s = Ok s.
Proof.
  destruct s as [s|]; [|reflexivity]. simpl. intros H.
  rewrite (varchar255_fits s H). reflexivity.
Qed.

Lemma existsb_name_is {R} (name_of : R -> option string) a rows :
  existsb (fun r => SafeData.name_is a (name_of r)) rows = true
  <-> In (Some a) (map name_of rows).
Proof.
  rewrite existsb_exists, in_map_iff. split.
  - intros (r & Hr & Hn). exists r. split; [|exact Hr].
    unfold SafeData.name_is in Hn. destruct (name_of r) as [s|];
      [|discriminate].
    apply String.eqb_eq in Hn. subst. reflexivity.
  - intros (r & Hn & Hr). exists r. split; [exact Hr|].
    rewrite Hn. simpl. apply String.eqb_refl.
Qed.

Lemma keys_ok_next ids seq :
  keys_ok ids seq -> keys_ok (ids ++ [seq]) (seq + 1)%Z.
Proof.
  intros [Hnd Hlt]. split.
  - apply NoDup_app; [exact Hnd | repeat constructor; intros [] |].
    intros i Hi [<-|[]]. rewrite Forall_forall in Hlt.
    specialize (Hlt _ Hi). lia.
  - apply Forall_app. split.
    + eapply Forall_impl; [|exact Hlt]. simpl. intros. lia.
    + repeat constructor. lia.
Qed.

Lemma references_find {R} (id_of : R -> Z) (p : R -> bool) rows :
  SafeData.references (map id_of rows) (option_map id_of (List.find p rows))
  = true.
Proof.
  destruct (List.find p rows) as [r|] eqn:E; [|reflexivity].
  apply find_some in E as [Hin _]. simpl.
  apply existsb_exists. exists (id_of r). split.
  - apply in_map. exact Hin.
  - apply Z.eqb_refl.
Qed.

Lemma references_area a t :
  SafeData.references (map area_id (areas t)) (SafeData.select_area_id a t)
  = true.
Proof.
  destruct a as [a|]; [|reflexivity]. apply references_find.
Qed.

Lemma references_location n t :
  SafeData.references (map location_id (locations t))
    (SafeData.select_location_id n t) = true.
Proof.
  destruct n as [n|]; [|reflexivity]. apply references_find.
Qed.

Lemma references_artist n t :
  SafeData.references (map artist_id (artists t))
    (SafeData.select_artist_id n t) = true.
Proof. apply references_find. Qed.

Lemma append_locations_app rows rows' t :
  append_locations rows' (append_locations rows t)
  = append_locations (rows ++ rows') t.
Proof.
  unfold append_locations. cbn [locations locations_seq areas areas_seq
    artists artists_seq concerts_data concerts_data_seq albums albums_seq].
  rewrite <- app_assoc, length_app, Nat2Z.inj_add, Z.add_assoc. reflexivity.
Qed.

Lemma append_areas_app rows rows' t :
  append_areas rows' (append_areas rows t) = append_areas (rows ++ rows') t.
Proof.
  unfold append_areas. cbn [locations locations_seq areas areas_seq
    artists artists_seq concerts_data concerts_data_seq albums albums_seq].
  rewrite <- app_assoc, length_app, Nat2Z.inj_add, Z.add_assoc. reflexivity.
Qed.

Lemma append_artists_app rows rows' t :
  append_artists rows' (append_artists rows t)
  = append_artists (rows ++ rows') t.
Proof.
  unfold append_artists. cbn [locations locations_seq areas areas_seq
    artists artists_seq concerts_data concerts_data_seq albums albums_seq].
  rewrite <- app_assoc, length_app, Nat2Z.inj_add, Z.add_assoc. reflexivity.
Qed.

Lemma append_concerts_app rows rows' t :
  append_concerts rows' (append_concerts rows t)
  = append_concerts (rows ++ rows') t.
Proof.
  unfold append_concerts. cbn [locations locations_seq areas areas_seq
    artists artists_seq concerts_data concerts_data_seq albums albums_seq].
  rewrite <- app_assoc, length_app, Nat2Z.inj_add, Z.add_assoc. reflexivity.
Qed.

Lemma append_albums_app rows rows' t :
  append_albums rows' (append_albums rows t)
  = append_albums (rows ++ rows') t.
Proof.
  unfold append_albums. cbn [locations locations_seq areas areas_seq
    artists artists_seq concerts_data concerts_data_seq albums albums_seq].
  rewrite <- app_assoc, length_app, Nat2Z.inj_add, Z.add_assoc. reflexivity.
Qed.

Lemma append_locations_nil t : append_locations [] t = t.
Proof.
  destruct t. unfold append_locations. simpl.
  rewrite app_nil_r, Z.add_0_r. reflexivity.
Qed.

Lemma append_areas_nil t : append_areas [] t = t.
Proof.
  destruct t. unfold append_areas. simpl.
  rewrite app_nil_r, Z.add_0_r. reflexivity.
Qed.

Lemma append_artists_nil t : append_artists [] t = t.
Proof.
  destruct t. unfold append_artists. simpl.
  rewrite app_nil_r, Z.add_0_r. reflexivity.
Qed.

Lemma append_concerts_nil t : append_concerts [] t = t.
Proof.
  destruct t. unfold append_concerts. simpl.
  rewrite app_nil_r, Z.add_0_r. reflexivity.
Qed.

Lemma append_albums_nil t : append_albums [] t = t.
Proof.
  destruct t. unfold append_albums. simpl.
  rewrite app_nil_r, Z.add_0_r. reflexivity.
Qed.

(** ** The fill loops *)

Lemma locations_loop lst : forall t,
  NoDup lst ->
  Forall (fun x => exists a, x = Some a /\ fits a) lst ->
  (forall x, In x lst -> ~ In x (map location_name (locations t))) ->
  exists rows,
    run_all SafeData.insert_location lst t = Ok (append_locations rows t)
    /\ map location_name rows = lst
    /\ (keys_ok (map location_id (locations t)) (locations_seq t) ->
        keys_ok (map location_id (locations t ++ rows))
          (locations_seq t + Z.of_nat (List.length rows))).
Proof.
  induction lst as [|x lst IH]; intros t Hnd Hfit Hnew.
  - exists []. rewrite append_locations_nil. split; [|split].
    + reflexivity.
    + reflexivity.
    + cbn [List.length]. rewrite app_nil_r, Z.add_0_r. auto.
  - inversion Hnd as [|? ? Hx Hnd']; subst.
    inversion Hfit as [|? ? (a & -> & Ha) Hfit']; subst.
    set (r := mkLocation (locations_seq t) (Some a)).
    assert (SafeData.insert_location (Some a) t
            = Ok (append_locations [r] t)) as Hstep.
    { unfold SafeData.insert_location.
      rewrite (varchar255_null_fits (Some a) Ha).
      destruct (existsb _ (locations t)) eqn:E; [|reflexivity].
      apply existsb_name_is in E. exfalso.
      apply (Hnew (Some a)); [left; reflexivity | exact E]. }
    assert (forall y, In y lst ->
              ~ In y (map location_name (locations (append_locations [r] t))))
      as Hnew'.
    { intros y Hy Hin. cbn [append_locations locations] in Hin.
      rewrite map_app in Hin. apply in_app_or in Hin as [Hin|[<-|[]]].
      - apply (Hnew y); [right; exact Hy | exact Hin].
      - apply Hx. exact Hy. }
    destruct (IH (append_locations [r] t) Hnd' Hfit' Hnew')
      as (rows & Hrun & Hn & Hk).
    exists (r :: rows). split; [|split].
    + cbn [run_all]. rewrite Hstep, Hrun. f_equal.
      apply append_locations_app.
    + simpl. rewrite Hn. reflexivity.
    + intros Hok. apply keys_ok_next in Hok.
      cbn [append_locations locations locations_seq List.length] in Hk.
      rewrite map_app in Hk. specialize (Hk Hok).
      rewrite <- app_assoc in Hk.
      replace (locations_seq t + Z.of_nat (List.length (r :: rows)))%Z
        with (locations_seq t + Z.of_nat 1 + Z.of_nat (List.length rows))%Z
        by (cbn [List.length]; lia).
      exact Hk.
Qed.

Lemma areas_loop lst : forall t,
  NoDup lst ->
  Forall (fun x => exists a, x = Some a /\ fits a) lst ->
  (forall x, In x lst -> ~ In x (map area_name (areas t))) ->
  exists rows,
    run_all SafeData.insert_area lst t = Ok (append_areas rows t)
    /\ map area_name rows = lst
    /\ (keys_ok (map area_id (areas t)) (areas_seq t) ->
        keys_ok (map area_id (areas t ++ rows))
          (areas_seq t + Z.of_nat (List.length rows))).
Proof.
  induction lst as [|x lst IH]; intros t Hnd Hfit Hnew.
  - exists []. rewrite append_areas_nil. split; [|split].
    + reflexivity.
    + reflexivity.
    + cbn [List.length]. rewrite app_nil_r, Z.add_0_r. auto.
  - inversion Hnd as [|? ? Hx Hnd']; subst.
    inversion Hfit as [|? ? (a & -> & Ha) Hfit']; subst.
    set (r := mkArea (areas_seq t) (Some a)).
    assert (SafeData.insert_area (Some a) t
            = Ok (append_areas [r] t)) as Hstep.
    { unfold SafeData.insert_area.
      rewrite (varchar255_null_fits (Some a) Ha).
      destruct (existsb _ (areas t)) eqn:E; [|reflexivity].
      apply existsb_name_is in E. exfalso.
      apply (Hnew (Some a)); [left; reflexivity | exact E]. }
    assert (forall y, In y lst ->
              ~ In y (map area_name (areas (append_areas [r] t))))
      as Hnew'.
    { intros y Hy Hin. cbn [append_areas areas] in Hin.
      rewrite map_app in Hin. apply in_app_or in Hin as [Hin|[<-|[]]].
      - apply (Hnew y); [right; exact Hy | exact Hin].
      - apply Hx. exact Hy. }
    destruct (IH (append_areas [r] t) Hnd' Hfit' Hnew')
      as (rows & Hrun & Hn & Hk).
    exists (r :: rows). split; [|split].
    + cbn [run_all]. rewrite Hstep, Hrun. f_equal.
      apply append_areas_app.
    + simpl. rewrite Hn. reflexivity.
    + intros Hok. apply keys_ok_next in Hok.
      cbn [append_areas areas areas_seq List.length] in Hk.
      rewrite map_app in Hk. specialize (Hk Hok).
      rewrite <- app_assoc in Hk.
      replace (areas_seq t + Z.of_nat (List.length (r :: rows)))%Z
        with (areas_seq t + Z.of_nat 1 + Z.of_nat (List.length rows))%Z
        by (cbn [List.length]; lia).
      exact Hk.
Qed.


Lemma artists_loop dicti : forall t,
  Forall (fun item => fits (fst item) /\ fits_null (snd (snd item))
                      /\ SafeData.mb_id_check (snd (snd item)) = true) dicti ->
  exists rows,
    run_all artist_stmt dicti t = Ok (append_artists rows t)
    /\ Forall2 (fun item r =>
                  artist_name r = fst item /\ mb_id r = snd (snd item)
                  /\ artist_area_id r
                     = SafeData.select_area_id (fst (snd item)) t)
         dicti rows
    /\ (keys_ok (map artist_id (artists t)) (artists_seq t) ->
        keys_ok (map artist_id (artists t ++ rows))
          (artists_seq t + Z.of_nat (List.length rows))).
Proof.
  induction dicti as [|[artist [area mb]] dicti IH]; intros t Hok.
  - exists []. rewrite append_artists_nil. split; [|split].
    + reflexivity.
    + constructor.
    + cbn [List.length]. rewrite app_nil_r, Z.add_0_r. auto.
  - inversion Hok as [|? ? (Hn & Hm & Hc) Hok']; subst.
    cbn [fst snd] in Hn, Hm, Hc.
    set (r := mkArtist (artists_seq t) (SafeData.select_area_id area t)
                artist mb).
    assert (artist_stmt (artist, (area, mb)) t = Ok (append_artists [r] t))
      as Hstep.
    { unfold artist_stmt, SafeData.insert_artist. cbn [fst snd].
      rewrite (varchar255_fits artist Hn), (varchar255_null_fits mb Hm), Hc.
      rewrite references_area. reflexivity. }
    destruct (IH (append_artists [r] t) Hok') as (rows & Hrun & Hrows & Hk).
    exists (r :: rows). split; [|split].
    + cbn [run_all]. rewrite Hstep, Hrun. f_equal.
      apply append_artists_app.
    + constructor; [repeat split | exact Hrows].
    + intros Hkeys. apply keys_ok_next in Hkeys.
      cbn [append_artists artists artists_seq List.length] in Hk.
      rewrite map_app in Hk. specialize (Hk Hkeys).
      rewrite <- app_assoc in Hk.
      replace (artists_seq t + Z.of_nat (List.length (r :: rows)))%Z
        with (artists_seq t + Z.of_nat 1 + Z.of_nat (List.length rows))%Z
        by (cbn [List.length]; lia).
      exact Hk.
Qed.

Lemma concerts_loop df : forall t,
  Forall (fun row => Date row <> None) df ->
  exists rows,
    run_all concert_stmt df t = Ok (append_concerts rows t)
    /\ Forall2 (fun row r =>
                  Some (concert_date r) = Date row
                  /\ concert_location_id r
                     = SafeData.select_location_id (Some (Location row)) t
                  /\ concert_artist_id r
                     = SafeData.select_artist_id (Artist row) t)
         df rows.
Proof.
  induction df as [|row df IH]; intros t Hok.
  - exists []. rewrite append_concerts_nil. split; [reflexivity|constructor].
  - inversion Hok as [|? ? Hd Hok']; subst.
    destruct (Date row) as [d|] eqn:Ed; [|congruence].
    set (r := mkConcertRow (concerts_data_seq t)
                (SafeData.select_location_id (Some (Location row)) t)
                (SafeData.select_artist_id (Artist row) t) d).
    assert (concert_stmt row t = Ok (append_concerts [r] t)) as Hstep.
    { unfold concert_stmt, SafeData.insert_concert. rewrite Ed.
      rewrite references_location, references_artist. reflexivity. }
    destruct (IH (append_concerts [r] t) Hok') as (rows & Hrun & Hrows).
    exists (r :: rows). split.
    + cbn [run_all]. rewrite Hstep, Hrun. f_equal.
      apply append_concerts_app.
    + constructor; [|exact Hrows]. rewrite Ed. repeat split.
Qed.

Lemma albums_inner aid albums : forall t,
  SafeData.references (map artist_id (artists t)) aid = true ->
  Forall fits_null albums ->
  exists rows,
    run_all (SafeData.insert_album aid) albums t = Ok (append_albums rows t)
    /\ Forall2 (fun album r => album_name r = album
                               /\ album_artist_id r = aid) albums rows.
Proof.
  induction albums as [|album albums IH]; intros t Href Hok.
  - exists []. rewrite append_albums_nil. split; [reflexivity|constructor].
  - inversion Hok as [|? ? Ha Hok']; subst.
    set (r := mkAlbum (albums_seq t) aid album).
    assert (SafeData.insert_album aid album t = Ok (append_albums [r] t))
      as Hstep.
    { unfold SafeData.insert_album.
      rewrite (varchar255_null_fits album Ha), Href. reflexivity. }
    destruct (IH (append_albums [r] t) Href Hok') as (rows & Hrun & Hrows).
    exists (r :: rows). split.
    + cbn [run_all]. rewrite Hstep, Hrun. f_equal.
      apply append_albums_app.
    + constructor; [split; reflexivity | exact Hrows].
Qed.

Lemma albums_loop dicti : forall t,
  Forall (fun item => Forall fits_null (snd item)) dicti ->
  exists rows,
    run_all album_stmt dicti t = Ok (append_albums rows t)
    /\ Forall2 (fun pair r =>
                  album_name r = snd pair
                  /\ album_artist_id r
                     = SafeData.select_artist_id (fst pair) t)
         (album_pairs dicti) rows.
Proof.
  induction dicti as [|[artist albums] dicti IH]; intros t Hok.
  - exists []. rewrite append_albums_nil. split; [reflexivity|constructor].
  - inversion Hok as [|? ? Ha Hok']; subst. cbn [snd] in Ha.
    destruct (albums_inner (SafeData.select_artist_id artist t) albums t
                (references_artist artist t) Ha) as (rows1 & Hrun1 & Hrows1).
    destruct (IH (append_albums rows1 t) Hok') as (rows & Hrun & Hrows).
    exists (rows1 ++ rows). split.
    + cbn [run_all]. unfold album_stmt at 1. cbn [fst snd].
      rewrite Hrun1, Hrun. f_equal. apply append_albums_app.
    + unfold album_pairs. cbn [flat_map fst snd].
      apply Forall2_app; [|exact Hrows].
      clear -Hrows1. induction Hrows1 as [|album r albums rows [H1 H2] _ IH'].
      * constructor.
      * constructor; [split; assumption | exact IH'].
Qed.

End RepositoryFacts.

Section LookupFacts.

Import Repo.

Lemma find_name_miss {R} (name_of : R -> option string) n rows :
  ~ In (Some n) (map name_of rows) ->
  List.find (fun r => SafeData.name_is n (name_of r)) rows = None.
Proof.
  intros H. destruct (List.find _ rows) as [r|] eqn:E; [|reflexivity].
  apply find_some in E as [Hin Hn]. exfalso. apply H.
  apply existsb_name_is. apply existsb_exists. exists r. auto.
Qed.

Lemma find_name_hit {R} (name_of : R -> option string) n rows r :
  List.find (fun r => SafeData.name_is n (name_of r)) rows = Some r ->
  In r rows /\ name_of r = Some n.
Proof.
  intros E. apply find_some in E as [Hin Hn]. split; [exact Hin|].
  unfold SafeData.name_is in Hn. destruct (name_of r); [|discriminate].
  apply String.eqb_eq in Hn. subst. reflexivity.
Qed.

Lemma select_location_miss n t :
  ~ In (Some n) (map location_name (locations t)) ->
  SafeData.select_location_id (Some n) t = None.
Proof.
  intros H. unfold SafeData.select_location_id.
  rewrite (find_name_miss location_name n _ H). reflexivity.
Qed.

Lemma select_area_miss a t :
  (forall n, a = Some n -> ~ In (Some n) (map area_name (areas t))) ->
  SafeData.select_area_id a t = None.
Proof.
  intros H. destruct a as [n|]; [|reflexivity].
  unfold SafeData.select_area_id.
  rewrite (find_name_miss area_name n _ (H n eq_refl)). reflexivity.
Qed.

Lemma select_artist_miss n t :
  ~ In n (map artist_name (artists t)) ->
  SafeData.select_artist_id n t = None.
Proof.
  intros H. unfold SafeData.select_artist_id.
  destruct (List.find _ (artists t)) as [r|] eqn:E; [|reflexivity].
  apply find_some in E as [Hin Hn]. apply String.eqb_eq in Hn.
  exfalso. apply H. rewrite <- Hn. apply in_map. exact Hin.
Qed.

Lemma select_location_hit n t i :
  SafeData.select_location_id n t = Some i ->
  exists r, In r (locations t) /\ location_id r = i /\ location_name r = n.
Proof.
  destruct n as [n|]; [|discriminate]. unfold SafeData.select_location_id.
  destruct (List.find _ (locations t)) as [r|] eqn:E; [|discriminate].
  intros H. injection H as <-. apply find_name_hit in E as [Hin Hn].
  exists r. auto.
Qed.


Lemma select_artist_hit n t i :
  SafeData.select_artist_id n t = Some i ->
  exists r, In r (artists t) /\ artist_id r = i /\ artist_name r = n.
Proof.
  unfold SafeData.select_artist_id.
  destruct (List.find _ (artists t)) as [r|] eqn:E; [|discriminate].
  intros H. injection H as <-. apply find_some in E as [Hin Hn].
  apply String.eqb_eq in Hn. exists r. auto.
Qed.

End LookupFacts.

(** ** C3: a lookup miss inserts a null key *)

(** C3: when every concert has a date and every artist entry meets its own
    column constraints, [fill_concerts_table] and [fill_artists_table]
    succeed whatever the lookups find, and a row whose location, artist or
    area name has no matching parent row is stored with a null key. *)
Theorem fills_insert_null_on_lookup_miss (w : world) (df : DataFrame)
    (dicti : list (string * (option string * option string))) :
  Forall (fun row => Date row <> None) df ->
  Forall (fun item => Repo.fits (fst item) /\ Repo.fits_null (snd (snd item))
                      /\ SafeData.mb_id_check (snd (snd item)) = true) dicti ->
  (exists rows,
     SafeData.fill_concerts_table df w
     = (Ok tt,
        Repo.set_committed w (Repo.append_concerts rows (current (conn w))))
     /\ Forall2 (fun row r =>
          Some (concert_date r) = Date row
          /\ (~ In (Some (Location row))
                (map location_name (locations (current (conn w)))) ->
              concert_location_id r = None)
          /\ (~ In (Artist row)
                (map artist_name (artists (current (conn w)))) ->
              concert_artist_id r = None)) df rows)
  /\ (exists rows,
        SafeData.fill_artists_table dicti w
        = (Ok tt,
           Repo.set_committed w (Repo.append_artists rows (current (conn w))))
        /\ Forall2 (fun item r =>
             artist_name r = fst item /\ mb_id r = snd (snd item)
             /\ ((forall a, fst (snd item) = Some a ->
                    ~ In (Some a)
                        (map area_name (areas (current (conn w))))) ->
                 artist_area_id r = None)) dicti rows).
Proof.
  intros Hdf Hdict. split.
  - destruct (concerts_loop df (current (conn w)) Hdf) as (rows & Hrun & Hrows).
    exists rows. split; [apply fill_concerts_run; exact Hrun|].
    eapply Forall2_impl; [|exact Hrows].
    intros row r (Hd & Hl & Ha). split; [exact Hd|]. split.
    + intros Hmiss. rewrite Hl. apply select_location_miss. exact Hmiss.
    + intros Hmiss. rewrite Ha. apply select_artist_miss. exact Hmiss.
  - destruct (artists_loop dicti (current (conn w)) Hdict)
      as (rows & Hrun & Hrows & _).
    exists rows. split; [apply fill_artists_run; exact Hrun|].
    eapply Forall2_impl; [|exact Hrows].
    intros item r (Hn & Hm & Ha). repeat split; try assumption.
    intros Hmiss. rewrite Ha. apply select_area_miss. exact Hmiss.
Qed.

(** A concert and an artist entry whose parents are missing, on empty
    tables. *)
Lemma fills_insert_null_on_lookup_miss_witness :
  (exists rows,
     SafeData.fill_concerts_table Examples.orphan_concerts Examples.fresh_world
     = (Ok tt, Repo.set_committed Examples.fresh_world
                 (Repo.append_concerts rows empty_tables))
     /\ map concert_location_id rows = [None]
     /\ map concert_artist_id rows = [None])
  /\ (exists rows,
        SafeData.fill_artists_table Examples.orphan_artists
          Examples.fresh_world
        = (Ok tt, Repo.set_committed Examples.fresh_world
                    (Repo.append_artists rows empty_tables))
        /\ map artist_area_id rows = [None]).
Proof.
  assert (Forall (fun row => Date row <> None) Examples.orphan_concerts)
    as H1 by (repeat constructor; discriminate).
  assert (Forall (fun item =>
            Repo.fits (fst item) /\ Repo.fits_null (snd (snd item))
            /\ SafeData.mb_id_check (snd (snd item)) = true)
            Examples.orphan_artists) as H2.
  { repeat constructor; unfold Repo.fits; simpl; lia. }
  destruct (fills_insert_null_on_lookup_miss Examples.fresh_world
              Examples.orphan_concerts Examples.orphan_artists H1 H2)
    as [(rows & Hrun & Hrows) (rows' & Hrun' & Hrows')].
  split.
  - exists rows. split; [exact Hrun|].
    inversion Hrows as [|? r ? ? (_ & Hl & Ha) Hnil]; subst.
    inversion Hnil; subst. simpl.
    rewrite (Hl (fun H => H)), (Ha (fun H => H)). split; reflexivity.
  - exists rows'. split; [exact Hrun'|].
    inversion Hrows' as [|? r ? ? (_ & _ & Ha) Hnil]; subst.
    inversion Hnil; subst. simpl.
    rewrite (Ha (fun _ _ H => H)). reflexivity.
Defined.

Section UniqueFacts.

Context {A : Type} (eqb : A -> A -> bool).
Hypothesis eqb_spec : forall a b, eqb a b = true <-> a = b.

Lemma unique_in l x : In x (Main.unique eqb l) <-> In x l.
Proof.
  induction l as [|y l IH]; [reflexivity|].
  cbn [Main.unique]. split.
  - intros [->|H]; [left; reflexivity|].
    apply filter_In in H as [H _]. right. apply IH. exact H.
  - intros [->|H]; [left; reflexivity|].
    destruct (eqb y x) eqn:E.
    + left. apply eqb_spec. exact E.
    + right. apply filter_In. split; [apply IH; exact H|].
      rewrite E. reflexivity.
Qed.

Lemma unique_nodup l : NoDup (Main.unique eqb l).
Proof.
  induction l as [|y l IH]; [constructor|].
  cbn [Main.unique]. constructor.
  - intros H. apply filter_In in H as [_ H].
    assert (eqb y y = true) as E by (apply eqb_spec; reflexivity).
    rewrite E in H. discriminate.
  - apply NoDup_filter. exact IH.
Qed.

End UniqueFacts.

Section AreasFacts.

Lemma opt_eqb_spec a b : Main.opt_eqb a b = true <-> a = b.
Proof.
  destruct a as [x|], b as [y|]; simpl; try (split; congruence).
  rewrite String.eqb_eq. split; congruence.
Qed.

Lemma dropna_in l x :
  In x (Main.dropna l) <-> In x l /\ exists a, x = Some a.
Proof.
  unfold Main.dropna. rewrite filter_In. split.
  - intros [H Hs]. split; [exact H|]. destruct x as [a|]; [|discriminate].
    exists a. reflexivity.
  - intros [H [a ->]]. split; [exact H | reflexivity].
Qed.

Lemma areas_lst_in dicti x :
  In x (Main.areas_lst dicti)
  <-> exists a, x = Some a
                /\ In (Some a) (map (fun kv => fst (snd kv)) dicti).
Proof.
  unfold Main.areas_lst. rewrite (unique_in _ opt_eqb_spec), dropna_in.
  split.
  - intros [H [a ->]]. exists a. auto.
  - intros [a [-> H]]. split; [exact H | exists a; reflexivity].
Qed.

End AreasFacts.

(** ** C10: the areas table *)

(** C10: the list passed to [fill_areas_table] holds each area of the
    artists once and holds no None; filling an empty areas table with it
    inserts exactly these names, none null; and an artist without area gets a
    null [area_id] from its lookup in [fill_artists_table]. *)
Theorem areas_inserted_once_and_never_null
    (dicti : list (string * (option string * option string))) (w : world) :
  areas (current (conn w)) = [] ->
  Forall Repo.fits_null (Main.areas_lst dicti) ->
  Forall (fun item => Repo.fits (fst item) /\ Repo.fits_null (snd (snd item))
                      /\ SafeData.mb_id_check (snd (snd item)) = true) dicti ->
  NoDup (Main.areas_lst dicti)
  /\ (forall x, In x (Main.areas_lst dicti) <->
        exists a, x = Some a
                  /\ In (Some a) (map (fun kv => fst (snd kv)) dicti))
  /\ (exists rows,
        SafeData.fill_areas_table (Main.areas_lst dicti) w
        = (Ok tt,
           Repo.set_committed w (Repo.append_areas rows (current (conn w))))
        /\ map area_name rows = Main.areas_lst dicti
        /\ Forall (fun r => area_name r <> None) rows)
  /\ (forall w', exists rows,
        SafeData.fill_artists_table dicti w'
        = (Ok tt,
           Repo.set_committed w'
             (Repo.append_artists rows (current (conn w'))))
        /\ Forall2 (fun item r =>
             fst (snd item) = None -> artist_area_id r = None) dicti rows).
Proof.
  intros Hempty Hfits Hcols.
  pose proof (unique_nodup _ opt_eqb_spec
                (Main.dropna (map (fun kv => fst (snd kv)) dicti))) as Hnd.
  split; [exact Hnd|]. split; [apply areas_lst_in|]. split.
  - destruct (areas_loop (Main.areas_lst dicti) (current (conn w)))
      as (rows & Hrun & Hnames & _).
    + exact Hnd.
    + apply Forall_forall. intros x Hx.
      rewrite Forall_forall in Hfits. specialize (Hfits x Hx).
      apply areas_lst_in in Hx as [a [-> _]]. exists a. auto.
    + intros x _. rewrite Hempty. intros [].
    + exists rows. split; [apply fill_areas_run; exact Hrun|].
      split; [exact Hnames|].
      apply Forall_forall. intros r Hr Hnull.
      assert (In (area_name r) (Main.areas_lst dicti)) as Hin
        by (rewrite <- Hnames; apply in_map; exact Hr).
      apply areas_lst_in in Hin as [a [Ha _]]. congruence.
  - intros w'.
    destruct (artists_loop dicti (current (conn w')) Hcols)
      as (rows & Hrun & Hrows & _).
    exists rows. split; [apply fill_artists_run; exact Hrun|].
    eapply Forall2_impl; [|exact Hrows].
    intros item r (_ & _ & Ha) Hnone. rewrite Ha, Hnone. reflexivity.
Qed.

(** Two artists from Austria and one without area, on an empty database. *)
Lemma areas_inserted_once_and_never_null_witness :
  Main.areas_lst Examples.three_artists = [Some "Austria"]
  /\ exists rows,
       SafeData.fill_areas_table (Main.areas_lst Examples.three_artists)
         Examples.fresh_world
       = (Ok tt, Repo.set_committed Examples.fresh_world
                   (Repo.append_areas rows empty_tables))
       /\ map area_name rows = [Some "Austria"].
Proof.
  split; [reflexivity|].
  assert (Forall Repo.fits_null (Main.areas_lst Examples.three_artists)) as H1.
  { constructor; [|constructor]. unfold Repo.fits_null, Repo.fits. simpl. lia. }
  assert (Forall (fun item =>
            Repo.fits (fst item) /\ Repo.fits_null (snd (snd item))
            /\ SafeData.mb_id_check (snd (snd item)) = true)
            Examples.three_artists) as H2.
  { repeat constructor; unfold Repo.fits; simpl; lia. }
  destruct (areas_inserted_once_and_never_null Examples.three_artists
              Examples.fresh_world eq_refl H1 H2)
    as (_ & _ & (rows & Hrun & Hnames & _) & _).
  exists rows. split; [exact Hrun | exact Hnames].
Defined.

(* ================================================================== *)
(** * The pipeline *)
(* ================================================================== *)

Section PipelineFacts.

Import Repo.

Lemma dict_set_fresh {A} (d : list (string * A)) k v :
  ~ In k (map fst d) -> Main.dict_set d k v = d ++ [(k, v)].
Proof.
  induction d as [|[k' v'] d IH]; intros H; [reflexivity|].
  cbn [Main.dict_set]. destruct (String.eqb_spec k' k) as [->|Hne].
  - exfalso. apply H. left. reflexivity.
  - rewrite IH; [reflexivity|]. intros Hin. apply H. right. exact Hin.
Qed.

Lemma as_text_of_text x w : Main.as_text (Payload.of_text x) w = (Ok x, w).
Proof. destruct x; reflexivity. Qed.

Lemma for_collect_as_text l w :
  for_collect (map Payload.of_text l) Main.as_text w = (Ok l, w).
Proof.
  induction l as [|x l IH]; [reflexivity|].
  cbn [map for_collect]. unfold bind. rewrite as_text_of_text, IH.
  reflexivity.
Qed.

Variable net : network.
Variables ida area : string -> option string.
Variable alb : string -> list (option string).

Lemma collect_artists_from names : forall dicti w,
  NoDup names ->
  (forall a, In a names -> ~ In a (map fst dicti)) ->
  (forall a, In a names -> forall w,
     ApiLogger.get_artist_id net a w = (Ok (Payload.of_text (ida a)), w)
     /\ ApiLogger.get_artist_area net (Payload.of_text (ida a)) w
        = (Ok (Payload.of_text (area a)), w)) ->
  for_fold names dicti (fun dicti artist =>
      mb_id <- ApiLogger.get_artist_id net artist ;;
      area <- ApiLogger.get_artist_area net mb_id ;;
      area' <- Main.as_text area ;;
      mb_id' <- Main.as_text mb_id ;;
      ret (Main.dict_set dicti artist (area', mb_id'))) w
  = (Ok (dicti ++ map (fun a => (a, (area a, ida a))) names), w).
Proof.
  induction names as [|a names IH]; intros dicti w Hnd Hfresh Hnet.
  - simpl. rewrite app_nil_r. reflexivity.
  - inversion Hnd as [|? ? Ha Hnd']; subst.
    destruct (Hnet a (or_introl eq_refl) w) as [Hid Har].
    cbn [for_fold]. unfold bind at 1. unfold bind at 1. rewrite Hid.
    unfold bind at 1. rewrite Har.
    unfold bind at 1. rewrite as_text_of_text.
    unfold bind at 1. rewrite as_text_of_text.
    unfold ret at 1.
    rewrite (dict_set_fresh dicti a _ (Hfresh a (or_introl eq_refl))).
    rewrite IH.
    + rewrite <- app_assoc. reflexivity.
    + exact Hnd'.
    + intros b Hb Hin. rewrite map_app in Hin.
      apply in_app_or in Hin as [Hin|[<-|[]]].
      * apply (Hfresh b); [right; exact Hb | exact Hin].
      * apply Ha. exact Hb.
    + intros b Hb. apply Hnet. right. exact Hb.
Qed.

Lemma collect_albums_from names : forall dicti w,
  NoDup names ->
  (forall a, In a names -> ~ In a (map fst dicti)) ->
  (forall a, In a names -> forall w,
     ApiLogger.get_album_names net a w
     = (Ok (map Payload.of_text (alb a)), w)) ->
  for_fold names dicti (fun dicti artist =>
      albums <- ApiLogger.get_album_names net artist ;;
      albums' <- for_collect albums Main.as_text ;;
      ret (Main.dict_set dicti artist albums')) w
  = (Ok (dicti ++ map (fun a => (a, alb a)) names), w).
Proof.
  induction names as [|a names IH]; intros dicti w Hnd Hfresh Hnet.
  - simpl. rewrite app_nil_r. reflexivity.
  - inversion Hnd as [|? ? Ha Hnd']; subst.
    cbn [for_fold]. unfold bind at 1. unfold bind at 1.
    rewrite (Hnet a (or_introl eq_refl) w).
    unfold bind at 1. rewrite for_collect_as_text.
    unfold ret at 1.
    rewrite (dict_set_fresh dicti a _ (Hfresh a (or_introl eq_refl))).
    rewrite IH.
    + rewrite <- app_assoc. reflexivity.
    + exact Hnd'.
    + intros b Hb Hin. rewrite map_app in Hin.
      apply in_app_or in Hin as [Hin|[<-|[]]].
      * apply (Hfresh b); [right; exact Hb | exact Hin].
      * apply Ha. exact Hb.
    + intros b Hb. apply Hnet. right. exact Hb.
Qed.

Lemma fill_database_run df ad al w t1 t2 t3 t4 t5 :
  run_all SafeData.insert_location (map Some (Main.locations_lst df))
    empty_tables = Ok t1 ->
  run_all SafeData.insert_area (Main.areas_lst ad) t1 = Ok t2 ->
  run_all artist_stmt ad t2 = Ok t3 ->
  run_all album_stmt al t3 = Ok t4 ->
  run_all concert_stmt df t4 = Ok t5 ->
  Main.fill_database df ad al w
  = (Ok tt,
     mkWorld (console w ++ [DatabaseCreated]) (mkConnection t5 t5 true)).
Proof.
  intros H1 H2 H3 H4 H5. unfold Main.fill_database.
  unfold bind at 1. unfold SafeData.create_database at 1.
  unfold bind at 1. unfold SafeData.create_tables at 1.
  cbn [current conn console committed has_tables].
  unfold bind at 1. erewrite fill_locations_run by exact H1.
  unfold bind at 1. erewrite fill_areas_run by exact H2.
  unfold bind at 1. erewrite fill_artists_run by exact H3.
  unfold bind at 1. erewrite fill_albums_run by exact H4.
  unfold bind at 1. erewrite fill_concerts_run by exact H5.
  reflexivity.
Qed.


Lemma Forall2_map_l {X Y Z} (f : X -> Y) (P : Y -> Z -> Prop) l rows :
  Forall2 P (map f l) rows -> Forall2 (fun x r => P (f x) r) l rows.
Proof.
  revert rows. induction l as [|x l IH]; intros rows H; inversion H; subst;
    constructor; auto.
Qed.

Lemma NoDup_map_Some {X} (l : list X) : NoDup l -> NoDup (map Some l).
Proof.
  induction 1 as [|x l Hx _ IH]; [constructor|].
  simpl. constructor; [|exact IH].
  intros H. apply in_map_iff in H as (y & Hy & Hin).
  injection Hy as ->. contradiction.
Qed.

Lemma keys_ok_empty : keys_ok [] 1%Z.
Proof. split; constructor. Qed.

(** The run from COLLECT DATA on, when the enrichment of each artist [a]
    yields the id [ida a], the area [area a] and the albums [alb a]. *)
Lemma pipeline_run df w :
  (forall a, In a (Main.unique String.eqb (map Artist df)) -> forall w,
     ApiLogger.get_artist_id net a w = (Ok (Payload.of_text (ida a)), w)
     /\ ApiLogger.get_artist_area net (Payload.of_text (ida a)) w
        = (Ok (Payload.of_text (area a)), w)
     /\ ApiLogger.get_album_names net a w
        = (Ok (map Payload.of_text (alb a)), w)) ->
  Forall (fun row => Date row <> None /\ fits (Location row)) df ->
  (forall a, In a (Main.unique String.eqb (map Artist df)) ->
     fits a /\ fits_null (ida a) /\ SafeData.mb_id_check (ida a) = true
     /\ fits_null (area a) /\ Forall fits_null (alb a)) ->
  exists rowsL rowsA rowsR rowsB rowsC,
    Main.pipeline net df w
    = (Ok tt,
       mkWorld (console w ++ [CollectNotice; DatabaseCreated])
         (mkConnection (Repo.database_of rowsL rowsA rowsR rowsB rowsC)
            (Repo.database_of rowsL rowsA rowsR rowsB rowsC) true))
    /\ map location_name rowsL = map Some (Main.locations_lst df)
    /\ map area_name rowsA
       = Main.areas_lst
           (map (fun a => (a, (area a, ida a)))
              (Main.unique String.eqb (map Artist df)))
    /\ Forall2 (fun a r =>
         artist_name r = a /\ mb_id r = ida a
         /\ artist_area_id r
            = SafeData.select_area_id (area a)
                (Repo.database_of rowsL rowsA rowsR rowsB rowsC))
         (Main.unique String.eqb (map Artist df)) rowsR
    /\ Forall2 (fun pair r =>
         album_name r = snd pair
         /\ album_artist_id r
            = SafeData.select_artist_id (fst pair)
                (Repo.database_of rowsL rowsA rowsR rowsB rowsC))
         (album_pairs
            (map (fun a => (a, alb a))
               (Main.unique String.eqb (map Artist df)))) rowsB
    /\ Forall2 (fun row r =>
         Some (concert_date r) = Date row
         /\ concert_location_id r
            = SafeData.select_location_id (Some (Location row))
                (Repo.database_of rowsL rowsA rowsR rowsB rowsC)
         /\ concert_artist_id r
            = SafeData.select_artist_id (Artist row)
                (Repo.database_of rowsL rowsA rowsR rowsB rowsC)) df rowsC
    /\ NoDup (map location_id rowsL) /\ NoDup (map area_id rowsA)
    /\ NoDup (map artist_id rowsR).
Proof.
  intros Hnet Hdf Hnames.
  set (names := Main.unique String.eqb (map Artist df)) in *.
  set (ad := map (fun a => (a, (area a, ida a))) names).
  set (al := map (fun a => (a, alb a)) names).
  assert (NoDup names) as Hnd by (apply unique_nodup, String.eqb_eq).
  (* locations *)
  destruct (locations_loop (map Some (Main.locations_lst df)) empty_tables)
    as (rowsL & HrunL & HnL & HkL).
  { apply NoDup_map_Some, unique_nodup, String.eqb_eq. }
  { apply Forall_forall. intros x Hx.
    apply in_map_iff in Hx as (l & <- & Hl). exists l. split; [reflexivity|].
    apply (proj1 (unique_in _ String.eqb_eq _ _)) in Hl.
    apply in_map_iff in Hl as (row & <- & Hrow).
    rewrite Forall_forall in Hdf. apply (Hdf row Hrow). }
  { intros x _ []. }
  (* areas *)
  destruct (areas_loop (Main.areas_lst ad)
              (append_locations rowsL empty_tables))
    as (rowsA & HrunA & HnA & HkA).
  { apply unique_nodup, opt_eqb_spec. }
  { apply Forall_forall. intros x Hx.
    apply areas_lst_in in Hx as (a' & -> & Hin). exists a'.
    split; [reflexivity|].
    unfold ad in Hin. rewrite map_map in Hin. cbn [fst snd] in Hin.
    apply in_map_iff in Hin as (n & Hn & Hin).
    destruct (Hnames n Hin) as (_ & _ & _ & Hfit & _).
    rewrite Hn in Hfit. exact Hfit. }
  { intros x _ []. }
  (* artists *)
  destruct (artists_loop ad
              (append_areas rowsA (append_locations rowsL empty_tables)))
    as (rowsR & HrunR & HrowsR & HkR).
  { apply Forall_forall. intros item Hitem. unfold ad in Hitem.
    apply in_map_iff in Hitem as (n & <- & Hin). cbn [fst snd].
    destruct (Hnames n Hin) as (H1 & H2 & H3 & _). auto. }
  (* albums *)
  destruct (albums_loop al
              (append_artists rowsR
                 (append_areas rowsA (append_locations rowsL empty_tables))))
    as (rowsB & HrunB & HrowsB).
  { apply Forall_forall. intros item Hitem. unfold al in Hitem.
    apply in_map_iff in Hitem as (n & <- & Hin). cbn [fst snd].
    destruct (Hnames n Hin) as (_ & _ & _ & _ & H5). exact H5. }
  (* concerts *)
  destruct (concerts_loop df
              (append_albums rowsB
                 (append_artists rowsR
                    (append_areas rowsA
                       (append_locations rowsL empty_tables)))))
    as (rowsC & HrunC & HrowsC).
  { eapply Forall_impl; [|exact Hdf]. intros row [H _]. exact H. }
  exists rowsL, rowsA, rowsR, rowsB, rowsC.
  split; [|split; [|split; [|split; [|split; [|split; [|split]]]]]].
  - unfold Main.pipeline. unfold bind at 1. unfold print at 1.
    unfold bind at 1. fold names.
    unfold Main.collect_artists.
    rewrite (collect_artists_from names [] _ Hnd (fun _ _ H => H)
               (fun a Ha w0 => let '(conj H1 (conj H2 _)) := Hnet a Ha w0 in
                               conj H1 H2)).
    unfold bind at 1. unfold Main.collect_albums.
    rewrite (collect_albums_from names [] _ Hnd (fun _ _ H => H)
               (fun a Ha w0 => let '(conj _ (conj _ H3)) := Hnet a Ha w0 in
                               H3)).
    cbn [app].
    rewrite (fill_database_run df ad al _ _ _ _ _ _
               HrunL HrunA HrunR HrunB HrunC).
    cbn [console]. rewrite <- app_assoc. reflexivity.
  - exact HnL.
  - exact HnA.
  - apply Forall2_map_l in HrowsR. exact HrowsR.
  - exact HrowsB.
  - exact HrowsC.
  - destruct (HkL keys_ok_empty) as [H _]. exact H.
  - split.
    + destruct (HkA keys_ok_empty) as [H _]. exact H.
    + destruct (HkR keys_ok_empty) as [H _]. exact H.
Qed.

End PipelineFacts.

Section ScenarioFacts.

Import Repo.





Lemma Forall2_in_r {X Y} (P : X -> Y -> Prop) l rows r :
  Forall2 P l rows -> In r rows -> exists x, In x l /\ P x r.
Proof.
  induction 1 as [|x y l rows Hxy _ IH]; intros Hin; [destruct Hin|].
  destruct Hin as [<-|Hin].
  - exists x. split; [left; reflexivity | exact Hxy].
  - destruct (IH Hin) as (x' & Hx' & Hp). exists x'. split; [right|]; auto.
Qed.




End ScenarioFacts.

Section LinkFacts.

Import Repo.

Lemma find_name_present {R} (name_of : R -> option string) n rows :
  In (Some n) (map name_of rows) ->
  List.find (fun r => SafeData.name_is n (name_of r)) rows <> None.
Proof.
  intros Hin Hnone. apply (existsb_name_is name_of) in Hin.
  apply existsb_exists in Hin as (r & Hr & Hn).
  apply (find_none _ _ Hnone) in Hr. congruence.
Qed.


Lemma select_location_present n t :
  In (Some n) (map location_name (locations t)) ->
  exists l, In l (locations t)
            /\ SafeData.select_location_id (Some n) t = Some (location_id l)
            /\ location_name l = Some n.
Proof.
  intros Hin. unfold SafeData.select_location_id.
  destruct (List.find _ (locations t)) as [r|] eqn:E.
  - apply find_name_hit in E as [Hr Hn]. exists r. auto.
  - exfalso. revert E. apply find_name_present. exact Hin.
Qed.

Lemma select_artist_present n t :
  In n (map artist_name (artists t)) ->
  exists a, In a (artists t)
            /\ SafeData.select_artist_id n t = Some (artist_id a)
            /\ artist_name a = n.
Proof.
  intros Hin. unfold SafeData.select_artist_id.
  destruct (List.find _ (artists t)) as [r|] eqn:E.
  - apply find_some in E as [Hr Hn]. apply String.eqb_eq in Hn.
    exists r. auto.
  - exfalso. apply in_map_iff in Hin as (r & Hn & Hr).
    apply (find_none _ _ E) in Hr. rewrite Hn, String.eqb_refl in Hr.
    discriminate Hr.
Qed.

Lemma Forall2_map_eq {X Y} (f : Y -> X) (P : X -> Y -> Prop) l rows :
  (forall x r, P x r -> f r = x) -> Forall2 P l rows -> map f rows = l.
Proof.
  intros Hf. induction 1 as [|x r l rows Hxr _ IH]; [reflexivity|].
  cbn [map]. rewrite (Hf x r Hxr), IH. reflexivity.
Qed.

Lemma Forall2_impl_in {X Y} (P Q : X -> Y -> Prop) l rows :
  (forall x r, In x l -> P x r -> Q x r) ->
  Forall2 P l rows -> Forall2 Q l rows.
Proof.
  intros Hpq H. induction H as [|x r l rows Hxr _ IH]; constructor.
  - apply Hpq; [left; reflexivity | exact Hxr].
  - apply IH. intros x' r' Hin. apply Hpq. right. exact Hin.
Qed.

Lemma album_pairs_artist (names : list string)
    (alb : string -> list (option string)) pair :
  In pair (album_pairs (map (fun a => (a, alb a)) names)) ->
  In (fst pair) names.
Proof.
  unfold album_pairs. rewrite in_flat_map. intros ([a l] & Hitem & Hin).
  apply in_map_iff in Hitem as (a' & Heq & Ha'). injection Heq as <- <-.
  cbn [fst snd] in Hin. apply in_map_iff in Hin as (x & <- & _). exact Ha'.
Qed.

End LinkFacts.

(** ** C1: the end-to-end scenario *)



(* ================================================================== *)
(** * Further properties of the scraper, the lookups and the repository *)
(* ================================================================== *)

Section SplitFacts.

Lemma split_from_skip sep p : forall rest,
  PyStr.split_from sep (String.length p) (p ++ rest)
  = PyStr.split_from sep 0 rest.
Proof.
  induction p as [|c p IH]; intros rest; [reflexivity|].
  cbn [String.length String.append PyStr.split_from]. apply IH.
Qed.

Lemma split_no_occurrence sep s :
  PyStr.occurs sep s = false -> PyStr.split sep s = [s].
Proof.
  unfold PyStr.split. induction s as [|c s IH]; intros H; [reflexivity|].
  rewrite occurs_cons in H. apply orb_false_iff in H as [H1 H2].
  rewrite split_from_cons, H1, (IH H2). reflexivity.
Qed.

(** A split at the first separator: the text before it, then the split of
    the text after it. *)
Lemma split_occurrence sep s :
  String.prefix sep EmptyString = false ->
  PyStr.occurs sep s = true ->
  exists rest,
    s = (PyStr.before sep s ++ sep ++ rest)%string
    /\ PyStr.split sep s = PyStr.before sep s :: PyStr.split sep rest.
Proof.
  intros Hne. unfold PyStr.split. induction s as [|c s IH]; intros H.
  - cbn [PyStr.occurs] in H. congruence.
  - rewrite occurs_cons in H. rewrite before_cons, split_from_cons.
    destruct (String.prefix sep (String c s)) eqn:E.
    + destruct sep as [|a p]; [discriminate Hne|].
      apply prefix_cons in E as [-> E].
      apply prefix_app in E as [rest ->]. exists rest.
      split; [reflexivity|].
      replace (String.length (String c p) - 1) with (String.length p)
        by (cbn [String.length]; lia).
      rewrite split_from_skip. reflexivity.
    + destruct (IH H) as (rest & Hs & Hsplit). exists rest. split.
      * change (String c s
                = String c (PyStr.before sep s ++ sep ++ rest)%string).
        rewrite <- Hs. reflexivity.
      * rewrite Hsplit. reflexivity.
Qed.

End SplitFacts.

(** ** The location and date cleanups *)

(** The stored location is the label cut at the first comma: it holds no
    comma, cleaning it again changes nothing, and the label is either stored
    whole or is the stored text, a comma and the text that is dropped. *)
Theorem location_text_cuts_at_first_comma (label : string) :
  exists stored,
    WebLogger.location_text label = Ok stored
    /\ PyStr.occurs "," stored = false
    /\ WebLogger.location_text stored = Ok stored
    /\ ((PyStr.occurs "," label = false /\ stored = label)
        \/ exists dropped, label = (stored ++ "," ++ dropped)%string).
Proof.
  exists (PyStr.before "," label).
  assert (PyStr.occurs "," (PyStr.before "," label) = false) as Hno
    by (apply occurs_before; reflexivity).
  split; [apply index_split_0|]. split; [exact Hno|]. split.
  - unfold WebLogger.location_text. rewrite index_split_0. f_equal.
    apply before_no_occurrence. exact Hno.
  - destruct (PyStr.occurs "," label) eqn:E.
    + right. apply before_occurrence. exact E.
    + left. split; [reflexivity | apply before_no_occurrence; exact E].
Qed.

(** The stored date text is the second space-separated word of the label: a
    label without a space raises [IndexError], and otherwise the text between
    the first space and the next one (or the end) is taken. *)
Theorem date_text_takes_second_word (label : string) :
  (PyStr.occurs " " label = false ->
   WebLogger.date_text label = Raise IndexError)
  /\ (PyStr.occurs " " label = true ->
      exists rest,
        label = (PyStr.before " " label ++ " " ++ rest)%string
        /\ WebLogger.date_text label = Ok (PyStr.before " " rest)
        /\ PyStr.occurs " " (PyStr.before " " rest) = false).
Proof.
  unfold WebLogger.date_text. split; intros H.
  - rewrite (split_no_occurrence _ _ H). reflexivity.
  - destruct (split_occurrence " " label eq_refl H) as (rest & Hs & Hsplit).
    exists rest. split; [exact Hs|]. split.
    + rewrite Hsplit. destruct (split_head " " rest) as [ps ->].
      reflexivity.
    + apply occurs_before. reflexivity.
Qed.

(** A date label of the concerts page. *)
Lemma date_text_takes_second_word_witness :
  exists rest,
    "Fr. 01.03.2024"%string
    = (PyStr.before " " "Fr. 01.03.2024" ++ " " ++ rest)%string
    /\ WebLogger.date_text "Fr. 01.03.2024" = Ok (PyStr.before " " rest)
    /\ PyStr.occurs " " (PyStr.before " " rest) = false.
Proof.
  apply (proj2 (date_text_takes_second_word "Fr. 01.03.2024")).
  reflexivity.
Defined.

Section FrameFacts.

Lemma collect_month_any month dates artists locations w :
  Forall (fun x => is_ok (WebLogger.date_text (Soup.text x)) = true)
    (Soup.find_all WebLogger.date_class month) ->
  exists ds,
    WebLogger.collect_month (dates, artists, locations) month w
    = (Ok (dates ++ ds,
           artists ++ map (fun x => PyStr.before " live" (Soup.text x))
                        (Soup.find_all WebLogger.artist_class month),
           locations ++ map (fun x => PyStr.before "," (Soup.text x))
                          (Soup.find_all WebLogger.location_class month)), w)
    /\ map (fun x => WebLogger.date_text (Soup.text x))
         (Soup.find_all WebLogger.date_class month) = map Ok ds.
Proof.
  intros Hok.
  destruct (ok_clean_map _ _ Hok) as [ds Hds].
  exists ds. split; [|exact Hds].
  unfold WebLogger.collect_month, bind.
  rewrite (append_all_ok _ _ dates ds w Hds).
  rewrite (append_all_ok WebLogger.artist_text _ artists _ w
             (total_clean_map _ _ _ (index_split_0 " live"))).
  rewrite (append_all_ok WebLogger.location_text _ locations _ w
             (total_clean_map _ _ _ (index_split_0 ","))).
  reflexivity.
Qed.

(** Without any assumption on the counts, each list is the concatenation,
    month by month, of the cleaned labels of its own kind. *)
Lemma collect_any months : forall dates artists locations w,
  Forall (fun month =>
            Forall (fun x => is_ok (WebLogger.date_text (Soup.text x)) = true)
              (Soup.find_all WebLogger.date_class month)) months ->
  exists ds,
    for_fold months (dates, artists, locations) WebLogger.collect_month w
    = (Ok (dates ++ ds,
           artists ++ map (fun x => PyStr.before " live" (Soup.text x))
                        (flat_map (Soup.find_all WebLogger.artist_class)
                           months),
           locations ++ map (fun x => PyStr.before "," (Soup.text x))
                          (flat_map (Soup.find_all WebLogger.location_class)
                             months)), w)
    /\ map (fun x => WebLogger.date_text (Soup.text x))
         (flat_map (Soup.find_all WebLogger.date_class) months) = map Ok ds.
Proof.
  induction months as [|month months IH]; intros dates artists locations w H.
  - exists []. cbn [flat_map map for_fold]. rewrite !app_nil_r.
    split; reflexivity.
  - inversion H as [|? ? Hm Hrest]; subst.
    destruct (collect_month_any month dates artists locations w Hm)
      as (ds & Hstep & Hds).
    match type of Hstep with
    | _ = (Ok (?d, ?a, ?l), _) =>
        destruct (IH d a l w Hrest) as (ds' & Hrun & Hds')
    end.
    exists (ds ++ ds'). split.
    + cbn [for_fold flat_map]. unfold bind. rewrite Hstep, Hrun.
      rewrite !map_app.
      rewrite (app_assoc dates ds ds'), (app_assoc artists),
        (app_assoc locations). reflexivity.
    + cbn [flat_map]. rewrite !map_app, Hds, Hds'. reflexivity.
Qed.

Lemma frame_rows (fd fa fl : node * node * node -> result string) :
  forall es ds ars ls w,
  map Ok ds = map fd es -> map Ok ars = map fa es -> map Ok ls = map fl es ->
  Forall (fun e => exists s, fd e = Ok s
                             /\ is_ok (Dates.to_datetime s) = true) es ->
  exists df,
    for_collect (combine (combine ds ars) ls) (fun row =>
        let '(d, a, loc) := row in
        d' <- lift (Dates.to_datetime d) ;;
        ret (mkConcert d' a loc)) w
    = (Ok df, w)
    /\ Forall2 (fun e row =>
         (exists s, fd e = Ok s /\ Dates.to_datetime s = Ok (Date row))
         /\ fa e = Ok (Artist row) /\ fl e = Ok (Location row)) es df.
Proof.
  induction es as [|e es IH]; intros ds ars ls w Hd Ha Hl Hok.
  - destruct ds; [|discriminate]. exists []. split; [reflexivity|constructor].
  - destruct ds as [|d ds]; [discriminate|].
    destruct ars as [|a ars]; [discriminate|].
    destruct ls as [|l ls]; [discriminate|].
    injection Hd as Hd0 Hd. injection Ha as Ha0 Ha. injection Hl as Hl0 Hl.
    inversion Hok as [|? ? (s & Hs & Hparse) Hok']; subst.
    assert (s = d) as -> by congruence.
    destruct (Dates.to_datetime d) as [d'|] eqn:Ed; [|discriminate].
    destruct (IH ds ars ls w Hd Ha Hl Hok') as (df & Hrun & Hrows).
    exists (mkConcert d' a l :: df). split.
    + cbn [combine for_collect]. unfold bind at 1. unfold bind at 1.
      unfold lift at 1. rewrite Ed. unfold ret at 1.
      unfold bind at 1. rewrite Hrun. reflexivity.
    + constructor; [|exact Hrows]. cbn [Date Artist Location].
      split; [exists d; auto|]. split; congruence.
Qed.

End FrameFacts.

(** ** The scraped frame *)

(** On a page whose container is found, whose month sections are well formed
    and whose date labels parse, [collect_data] returns one row per concert
    entry, in source order, holding the parsed date and the cleaned artist
    and location of that entry. *)
Theorem collect_data_rows (concerts website : node) (w : world) :
  Soup.find WebLogger.website_class concerts = Some website ->
  Forall WebLogger.well_formed_month
    (Soup.find_all WebLogger.month_class website) ->
  Forall (fun e =>
            exists s, WebLogger.date_text (Soup.text (fst (fst e))) = Ok s
                      /\ is_ok (Dates.to_datetime s) = true)
    (WebLogger.entries (Soup.find_all WebLogger.month_class website)) ->
  exists df,
    WebLogger.collect_data (Some concerts) w = (Ok df, w)
    /\ Forall2 (fun e row =>
         (exists s, WebLogger.date_text (Soup.text (fst (fst e))) = Ok s
                    /\ Dates.to_datetime s = Ok (Date row))
         /\ WebLogger.artist_text (Soup.text (snd (fst e))) = Ok (Artist row)
         /\ WebLogger.location_text (Soup.text (snd e)) = Ok (Location row))
         (WebLogger.entries (Soup.find_all WebLogger.month_class website)) df.
Proof.
  intros Hfind Hwf Hdates.
  set (months := Soup.find_all WebLogger.month_class website) in *.
  destruct (collect_from months [] [] [] w Hwf)
    as (ds & ars & ls & Hrun & Hd & Ha & Hl).
  destruct (frame_rows _ _ _ (WebLogger.entries months) ds ars ls w
              Hd Ha Hl Hdates) as (df & Hdf & Hrows).
  exists df. split; [|exact Hrows].
  unfold WebLogger.collect_data. rewrite Hfind. cbv zeta. fold months.
  unfold bind at 1. unfold WebLogger.collect_lists, WebLogger.lists.
  rewrite Hrun.
  cbn [app]. unfold bind at 1. unfold WebLogger.make_frame.
  assert (List.length ds = List.length ars) as E1.
  { rewrite <- (length_map Ok ds), Hd, <- (length_map Ok ars), Ha.
    rewrite !length_map. reflexivity. }
  assert (List.length ars = List.length ls) as E2.
  { rewrite <- (length_map Ok ars), Ha, <- (length_map Ok ls), Hl.
    rewrite !length_map. reflexivity. }
  rewrite E1, E2, !Nat.eqb_refl. cbn [andb]. unfold ret at 1.
  exact Hdf.
Qed.

(** The frame of the sample page of two concerts. *)
Lemma collect_data_rows_witness :
  exists df,
    WebLogger.collect_data (Some Examples.page_of_two) Examples.fresh_world
    = (Ok df, Examples.fresh_world)
    /\ List.length df = 2.
Proof.
  destruct (collect_data_rows Examples.page_of_two
              (NTag ["grid-box"; "grid-box-first"; "grid-box-last";
                     "grid-box-concerts-list"] [Examples.month_of_two])
              Examples.fresh_world) as (df & Hrun & Hrows).
  - reflexivity.
  - repeat constructor.
  - repeat constructor; eexists; split; reflexivity.
  - exists df. split; [exact Hrun|].
    apply Forall2_length in Hrows. rewrite <- Hrows. reflexivity.
Defined.

(** When the page holds different numbers of date, artist and location
    elements in all, no frame is built: [collect_data] raises
    [ValueError]. *)
Theorem collect_data_rejects_uneven_columns (concerts website : node)
    (w : world) :
  Soup.find WebLogger.website_class concerts = Some website ->
  Forall (fun month =>
            Forall (fun x => is_ok (WebLogger.date_text (Soup.text x)) = true)
              (Soup.find_all WebLogger.date_class month))
    (Soup.find_all WebLogger.month_class website) ->
  List.length (flat_map (Soup.find_all WebLogger.date_class)
                 (Soup.find_all WebLogger.month_class website))
  <> List.length (flat_map (Soup.find_all WebLogger.artist_class)
                    (Soup.find_all WebLogger.month_class website))
  \/ List.length (flat_map (Soup.find_all WebLogger.artist_class)
                    (Soup.find_all WebLogger.month_class website))
     <> List.length (flat_map (Soup.find_all WebLogger.location_class)
                       (Soup.find_all WebLogger.month_class website)) ->
  WebLogger.collect_data (Some concerts) w = (Raise ValueError, w).
Proof.
  intros Hfind Hok Hne.
  set (months := Soup.find_all WebLogger.month_class website) in *.
  destruct (collect_any months [] [] [] w Hok) as (ds & Hrun & Hds).
  unfold WebLogger.collect_data. rewrite Hfind. cbv zeta. fold months.
  unfold bind at 1. unfold WebLogger.collect_lists, WebLogger.lists.
  rewrite Hrun.
  cbn [app]. unfold bind at 1. unfold WebLogger.make_frame.
  assert (List.length ds
          = List.length (flat_map (Soup.find_all WebLogger.date_class) months))
    as ->.
  { rewrite <- (length_map Ok ds), <- Hds, length_map. reflexivity. }
  rewrite !length_map.
  destruct Hne as [Hne|Hne]; apply Nat.eqb_neq in Hne; rewrite Hne.
  - reflexivity.
  - rewrite andb_false_r. reflexivity.
Qed.

(** A page with a date and no artist or location. *)
Lemma collect_data_rejects_uneven_columns_witness :
  WebLogger.collect_data (Some Examples.page_with_lone_date)
    Examples.fresh_world
  = (Raise ValueError, Examples.fresh_world).
Proof.
  apply (collect_data_rejects_uneven_columns Examples.page_with_lone_date
           (NTag ["grid-box"; "grid-box-first"; "grid-box-last";
                  "grid-box-concerts-list"] [Examples.month_with_lone_date])
           Examples.fresh_world).
  - reflexivity.
  - repeat constructor.
  - left. discriminate.
Defined.

(** Without the page or without the concerts container nothing is returned:
    a failed request is reported and the read of the unbound response raises
    [UnboundLocalError]; a page without the container raises
    [AttributeError]. *)
Theorem collect_data_needs_page_and_container (w : world) :
  WebLogger.collect_data None w
  = (Raise UnboundLocalError,
     mkWorld (console w ++ [ConnectionToWebsiteFailed]) (conn w))
  /\ forall concerts,
       Soup.find_all WebLogger.website_class concerts = [] ->
       WebLogger.collect_data (Some concerts) w = (Raise AttributeError, w).
Proof.
  split; [reflexivity|]. intros concerts H.
  unfold WebLogger.collect_data, Soup.find. rewrite H. reflexivity.
Qed.

(** A page that is a single paragraph. *)
Lemma collect_data_needs_page_and_container_witness :
  WebLogger.collect_data (Some (NTag [] [NText "Wartung"]))
    Examples.fresh_world
  = (Raise AttributeError, Examples.fresh_world).
Proof.
  apply (proj2 (collect_data_needs_page_and_container Examples.fresh_world)).
  reflexivity.
Defined.

(** ** The MusicBrainz lookups on other payloads *)

(** The id lookup takes the id of the first search result, whatever follows
    it. *)
Theorem get_artist_id_takes_first_result (net : network) (name : string)
    (payload first : list (string * value)) (others : list value)
    (id : value) (w : world) :
  net (ArtistSearch name) = Json (VDict payload) ->
  Py.lookup "artists" payload = Some (VList (VDict first :: others)) ->
  Py.lookup "id" first = Some id ->
  ApiLogger.get_artist_id net name w = (Ok id, w).
Proof.
  intros Hnet Hd Hid. unfold ApiLogger.get_artist_id, ApiLogger.api_request.
  rewrite Hnet. unfold bind, ret, lift, Py.contains, Py.getitem.
  rewrite Hd. cbn [Py.truthy Py.getitem0]. rewrite Hid. reflexivity.
Qed.

(** The sample search result for Powerwolf. *)
Lemma get_artist_id_takes_first_result_witness :
  ApiLogger.get_artist_id Examples.scenario_net "Powerwolf"
    Examples.fresh_world
  = (Ok (VStr Examples.sample_uuid), Examples.fresh_world).
Proof.
  apply (get_artist_id_takes_first_result Examples.scenario_net "Powerwolf"
           [("artists",
             VList [VDict [("id", VStr Examples.sample_uuid);
                           ("name", VStr "Powerwolf")]])]
           [("id", VStr Examples.sample_uuid); ("name", VStr "Powerwolf")]
           [] (VStr Examples.sample_uuid) Examples.fresh_world);
    reflexivity.
Defined.

(** The area lookup on an artist record: None when the record has no
    ['area'] or a null one, and otherwise the ['name'] of the area. *)
Theorem get_artist_area_of_record (net : network) (mb_id : value)
    (record : list (string * value)) (w : world) :
  net (ArtistLookup mb_id) = Json (VDict record) ->
  (Py.lookup "area" record = None ->
   ApiLogger.get_artist_area net mb_id w = (Ok VNone, w))
  /\ (Py.lookup "area" record = Some VNone ->
      ApiLogger.get_artist_area net mb_id w = (Ok VNone, w))
  /\ (forall area name,
        Py.lookup "area" record = Some (VDict area) ->
        Py.lookup "name" area = Some name ->
        ApiLogger.get_artist_area net mb_id w = (Ok name, w)).
Proof.
  intros Hnet. unfold ApiLogger.get_artist_area, ApiLogger.api_request.
  rewrite Hnet. unfold bind, ret, lift, Py.contains, Py.getitem.
  split; [|split].
  - intros ->. reflexivity.
  - intros ->. reflexivity.
  - intros area name -> Hname. cbn [Py.is_none negb]. rewrite Hname.
    reflexivity.
Qed.

(** The sample record of an artist without area. *)
Lemma get_artist_area_of_record_witness :
  ApiLogger.get_artist_area Examples.scenario_net (VStr Examples.other_uuid)
    Examples.fresh_world
  = (Ok VNone, Examples.fresh_world).
Proof.
  apply (get_artist_area_of_record Examples.scenario_net
           (VStr Examples.other_uuid) [("area", VNone)]
           Examples.fresh_world); reflexivity.
Defined.

(** A request that fails (no connection, or a body that is not JSON) makes
    the area lookup and the album listing raise [TypeError], after the
    failure was reported: the None payload is tested for a key. *)
Theorem lookups_raise_on_failed_request (net : network) (name : string)
    (mb_id : value) (w : world) :
  ((forall v, net (ArtistLookup mb_id) <> Json v) ->
   ApiLogger.get_artist_area net mb_id w
   = (Raise TypeError,
      mkWorld (console w ++ [ConnectionToApiFailed]) (conn w)))
  /\ ((forall v, net (ReleaseGroupSearch name) <> Json v) ->
      ApiLogger.get_album_names net name w
      = (Raise TypeError,
         mkWorld (console w ++ [ConnectionToApiFailed]) (conn w))).
Proof.
  split; intros H.
  - unfold ApiLogger.get_artist_area, ApiLogger.api_request.
    destruct (net (ArtistLookup mb_id)) as [| |v] eqn:E;
      [reflexivity | reflexivity | destruct (H v eq_refl)].
  - unfold ApiLogger.get_album_names, ApiLogger.api_request.
    destruct (net (ReleaseGroupSearch name)) as [| |v] eqn:E;
      [reflexivity | reflexivity | destruct (H v eq_refl)].
Qed.

(** Both lookups while offline. *)
Lemma lookups_raise_on_failed_request_witness :
  ApiLogger.get_artist_area Examples.offline VNone Examples.fresh_world
  = (Raise TypeError,
     mkWorld [ConnectionToApiFailed] (conn Examples.fresh_world))
  /\ ApiLogger.get_album_names Examples.offline "Powerwolf"
       Examples.fresh_world
     = (Raise TypeError,
        mkWorld [ConnectionToApiFailed] (conn Examples.fresh_world)).
Proof.
  destruct (lookups_raise_on_failed_request Examples.offline "Powerwolf"
              VNone Examples.fresh_world) as [H1 H2].
  split; [apply H1 | apply H2]; intros v; discriminate.
Defined.

Section AlbumFacts.

Lemma for_fold_app {A S} (body : S -> A -> M S) l1 l2 acc acc' w w' :
  for_fold l1 acc body w = (Ok acc', w') ->
  for_fold (l1 ++ l2) acc body w = for_fold l2 acc' body w'.
Proof.
  revert acc w. induction l1 as [|x l1 IH]; intros acc w H.
  - cbn in H. injection H as <- <-. reflexivity.
  - cbn [for_fold app] in *. unfold bind in *.
    destruct (body acc x w) as [[a|e] w1]; [|discriminate].
    apply IH. exact H.
Qed.

End AlbumFacts.

(** A payload without ['release-groups'] gives the empty album list; and a
    release-group whose ['artist-credit'] list is empty stops the listing
    with [IndexError], also when the groups before it were in order. *)
Theorem get_album_names_edge_cases (net : network) (name : string)
    (payload : list (string * value)) (w : world) :
  net (ReleaseGroupSearch name) = Json (VDict payload) ->
  (Py.lookup "release-groups" payload = None ->
   ApiLogger.get_album_names net name w = (Ok [], w))
  /\ (forall good fields bad rest,
        Py.lookup "release-groups" payload
        = Some (VList (good ++ VDict bad :: rest)) ->
        map Payload.credited_title good = map Some fields ->
        Py.lookup "artist-credit" bad = Some (VList []) ->
        ApiLogger.get_album_names net name w = (Raise IndexError, w)).
Proof.
  intros Hnet. split.
  - intros H. unfold ApiLogger.get_album_names, ApiLogger.api_request.
    rewrite Hnet. unfold bind, ret, lift, Py.contains. rewrite H.
    reflexivity.
  - intros good fields bad rest Hp Hgood Hbad.
    unfold ApiLogger.get_album_names, ApiLogger.api_request.
    rewrite Hnet. unfold bind at 1. unfold ret at 1.
    unfold bind at 1. unfold lift at 1. unfold Py.contains. rewrite Hp.
    unfold bind at 1. unfold lift at 1. unfold Py.getitem at 1. rewrite Hp.
    unfold bind at 1. unfold lift at 1. cbn [Py.iter].
    rewrite (for_fold_app _ good _ _ _ _ _
               (album_loop name good fields [] w Hgood)).
    cbn [for_fold]. unfold bind at 1. unfold bind at 1. unfold lift at 1.
    unfold Py.getitem at 1. rewrite Hbad. reflexivity.
Qed.

(** An error object instead of a search result. *)
Lemma get_album_names_edge_cases_witness :
  ApiLogger.get_album_names
    (fun _ => Json (VDict [("error", VStr "Rate limited")]))
    "Powerwolf" Examples.fresh_world
  = (Ok [], Examples.fresh_world).
Proof.
  apply (proj1 (get_album_names_edge_cases
                  (fun _ => Json (VDict [("error", VStr "Rate limited")]))
                  "Powerwolf" [("error", VStr "Rate limited")]
                  Examples.fresh_world eq_refl)).
  reflexivity.
Defined.

(** ** The Spotify step *)

Section TrackFacts.


End TrackFacts.



(** Nothing is caught in the Spotify step: an answer of the token exchange
    without ['access_token'], or a search answer without ['artists'] (an
    error object), raises [KeyError] before anything is printed. *)
Theorem top_tracks_raises_on_error_objects (net : network)
    (input_artist : string) (credentials : list (string * value))
    (w : world) :
  net SpotifyToken = Json (VDict credentials) ->
  (Py.lookup "access_token" credentials = None ->
   Main.top_tracks net input_artist w = (Raise KeyError, w))
  /\ (forall token found,
        Py.lookup "access_token" credentials = Some (VStr token) ->
        net (SpotifySearch token input_artist) = Json (VDict found) ->
        Py.lookup "artists" found = None ->
        Main.top_tracks net input_artist w = (Raise KeyError, w)).
Proof.
  intros Htoken. split.
  - intros Hcred. unfold Main.top_tracks. unfold bind at 1.
    unfold ApiLogger.SpotifyAPI, ApiLogger.spotify_request. rewrite Htoken.
    unfold bind, ret, lift, Py.getitem. rewrite Hcred. reflexivity.
  - intros token found Hcred Hsearch Hfound.
    unfold Main.top_tracks. unfold bind at 1.
    unfold ApiLogger.SpotifyAPI, ApiLogger.spotify_request. rewrite Htoken.
    unfold bind at 1. unfold ret at 1.
    unfold bind at 1. unfold lift at 1, Py.getitem at 1. rewrite Hcred.
    unfold ret at 1. unfold bind at 1.
    unfold ApiLogger.search_artist, ApiLogger.spotify_request.
    rewrite Hsearch. unfold bind, ret, lift, Py.getitem. rewrite Hfound.
    reflexivity.
Qed.

(** Rejected client credentials. *)
Lemma top_tracks_raises_on_error_objects_witness :
  Main.top_tracks (fun _ => Json (VDict [("error", VStr "invalid_client")]))
    "Powerwolf" Examples.fresh_world
  = (Raise KeyError, Examples.fresh_world).
Proof.
  apply (proj1 (top_tracks_raises_on_error_objects
                  (fun _ => Json (VDict [("error", VStr "invalid_client")]))
                  "Powerwolf" [("error", VStr "invalid_client")]
                  Examples.fresh_world eq_refl)).
  reflexivity.
Defined.

(** ** Commits *)

Section CommitFacts.

Import Repo.

Import Invariants.

Lemma advanced_refl t : advanced t t.
Proof. intros s. lia. Qed.

Lemma advanced_trans t1 t2 t3 :
  advanced t1 t2 -> advanced t2 t3 -> advanced t1 t3.
Proof. intros H1 H2 s. specialize (H1 s). specialize (H2 s). lia. Qed.

Lemma advanced_nextval key t : advanced t (SafeData.nextval key t).
Proof. intros s. destruct key, s; cbn; lia. Qed.

Lemma draws_insert_location name : draws (SafeData.insert_location name).
Proof.
  intros t t'. unfold SafeData.insert_location.
  destruct (SafeData.varchar255_null name) as [[n|]|]; [| |discriminate].
  - destruct (existsb _ (locations t)); [discriminate|].
    intros H s. injection H as <-. destruct s; cbn; lia.
  - intros H s. injection H as <-. destruct s; cbn; lia.
Qed.

Lemma draws_insert_area name : draws (SafeData.insert_area name).
Proof.
  intros t t'. unfold SafeData.insert_area.
  destruct (SafeData.varchar255_null name) as [[n|]|]; [| |discriminate].
  - destruct (existsb _ (areas t)); [discriminate|].
    intros H s. injection H as <-. destruct s; cbn; lia.
  - intros H s. injection H as <-. destruct s; cbn; lia.
Qed.

Lemma draws_insert_artist area name mb :
  draws (SafeData.insert_artist area name mb).
Proof.
  intros t t'. unfold SafeData.insert_artist.
  destruct (SafeData.varchar255 name); [|discriminate].
  destruct (SafeData.varchar255_null mb) as [m|]; [|discriminate].
  destruct (negb (SafeData.mb_id_check m)); [discriminate|].
  destruct (negb (SafeData.references _ area)); [discriminate|].
  intros H s. injection H as <-. destruct s; cbn; lia.
Qed.

Lemma draws_insert_album artist name :
  draws (SafeData.insert_album artist name).
Proof.
  intros t t'. unfold SafeData.insert_album.
  destruct (SafeData.varchar255_null name); [|discriminate].
  destruct (negb (SafeData.references _ artist)); [discriminate|].
  intros H s. injection H as <-. destruct s; cbn; lia.
Qed.

Lemma draws_insert_concert location artist d :
  draws (SafeData.insert_concert location artist d).
Proof.
  intros t t'. unfold SafeData.insert_concert.
  destruct d as [d|]; [|discriminate].
  destruct (negb (SafeData.references _ location)
            || negb (SafeData.references _ artist)); [discriminate|].
  intros H s. injection H as <-. destruct s; cbn; lia.
Qed.

Lemma stable_execute key stmt :
  draws stmt -> stable (SafeData.execute key stmt).
Proof.
  intros Hd w. unfold SafeData.execute.
  destruct (stmt (current (conn w))) as [t|e] eqn:E; cbn [fst snd].
  - split; [reflexivity|]. split; [reflexivity|].
    split; [apply (Hd _ _ E) | discriminate].
  - split; [reflexivity|]. split; [reflexivity|].
    split; [|reflexivity].
    destruct (SafeData.draws_key e);
      [apply advanced_nextval | apply advanced_refl].
Qed.

Lemma stable_bind {A B} (c : M A) (k : A -> M B) :
  stable c -> (forall a, stable (k a)) -> stable (bind c k).
Proof.
  intros Hc Hk w. unfold bind. specialize (Hc w).
  destruct (c w) as [[a|e] w1]; cbn [fst snd] in *.
  - destruct (Hk a w1) as (H1 & H2 & H3 & H4).
    destruct Hc as (H5 & H6 & H7 & _).
    split; [congruence|]. split; [congruence|].
    split; [exact (advanced_trans _ _ _ H7 H3) | exact H4].
  - destruct Hc as (H5 & H6 & H7 & H8).
    split; [exact H5|]. split; [exact H6|]. split; [exact H7|].
    intros e0 _. apply (H8 e). reflexivity.
Qed.

Lemma stable_ret {A} (a : A) : stable (ret a).
Proof.
  intros w. split; [reflexivity|]. split; [reflexivity|].
  split; [apply advanced_refl | discriminate].
Qed.

Lemma stable_for_each {A} (l : list A) (body : A -> M unit) :
  (forall x, stable (body x)) -> stable (for_each l body).
Proof.
  intros Hb. induction l as [|x l IH].
  - apply stable_ret.
  - cbn [for_each]. apply stable_bind; [apply Hb | intros _; exact IH].
Qed.

Lemma stable_fetchone {A} (q : tables -> A) : stable (SafeData.fetchone q).
Proof.
  intros w. split; [reflexivity|]. split; [reflexivity|].
  split; [apply advanced_refl | discriminate].
Qed.

Lemma commit_after_stable (loop : M unit) w :
  stable loop -> all_or_nothing (loop ;;; SafeData.commit) w.
Proof.
  intros Hs. unfold all_or_nothing, bind.
  destruct (Hs w) as (H1 & H2 & H3 & H4).
  destruct (loop w) as [[[]|e] w1]; cbn [fst snd] in *.
  - unfold SafeData.commit. cbn [fst snd console conn current committed].
    split; [exact H2|]. split; [exact H3 | reflexivity].
  - split; [exact H2|]. split; [exact H3|].
    split; [exact H1 | apply (H4 e); reflexivity].
Qed.

Lemma stable_locations lst :
  stable (for_each lst (fun item =>
            SafeData.execute locations_location_id_seq
              (SafeData.insert_location item))).
Proof.
  apply stable_for_each. intros x.
  apply stable_execute, draws_insert_location.
Qed.

Lemma stable_areas lst :
  stable (for_each lst (fun item =>
            SafeData.execute areas_area_id_seq (SafeData.insert_area item))).
Proof.
  apply stable_for_each. intros x.
  apply stable_execute, draws_insert_area.
Qed.

Lemma stable_artists
    (dicti : list (string * (option string * option string))) :
  stable (for_each dicti (fun item =>
            let '(artist, area_mbid) := item in
            area_id <- SafeData.fetchone
                         (SafeData.select_area_id (fst area_mbid)) ;;
            SafeData.execute artists_artist_id_seq
              (SafeData.insert_artist area_id artist (snd area_mbid)))).
Proof.
  apply stable_for_each. intros [artist area_mbid].
  apply stable_bind; [apply stable_fetchone|]. intros a.
  apply stable_execute, draws_insert_artist.
Qed.

Lemma stable_albums (dicti : list (string * list (option string))) :
  stable (for_each dicti (fun item =>
            let '(artist, albums) := item in
            artist_id <- SafeData.fetchone
                           (SafeData.select_artist_id artist) ;;
            match albums with
            | [] => ret tt
            | _ =>
                for_each albums (fun album =>
                  SafeData.execute albums_album_id_seq
                    (SafeData.insert_album artist_id album))
            end)).
Proof.
  apply stable_for_each. intros [artist albums].
  apply stable_bind; [apply stable_fetchone|]. intros a.
  destruct albums as [|album albums].
  - apply stable_ret.
  - apply stable_for_each. intros x.
    apply stable_execute, draws_insert_album.
Qed.

Lemma stable_concerts (df : DataFrame) :
  stable (for_each df (fun row =>
            location_id <- SafeData.fetchone
                             (SafeData.select_location_id
                                (Some (Location row))) ;;
            artist_id <- SafeData.fetchone
                           (SafeData.select_artist_id (Artist row)) ;;
            SafeData.execute concerts_data_concert_id_seq
              (SafeData.insert_concert location_id artist_id (Date row)))).
Proof.
  apply stable_for_each. intros row.
  apply stable_bind; [apply stable_fetchone|]. intros a.
  apply stable_bind; [apply stable_fetchone|]. intros b.
  apply stable_execute, draws_insert_concert.
Qed.

End CommitFacts.

(** Each fill method prints nothing and commits once, after its loop: when
    it returns, the working tables with all its rows are committed; when an
    INSERT raises, no row of the call is committed, the committed rows being
    those from before the call.  The sequences are not part of that: they
    never go back, and after a failure the database keeps them where the
    failed transaction took them, so the keys it drew are lost. *)
Theorem fills_commit_all_or_nothing (w : world)
    (locations_lst areas_lst : list (option string))
    (artists_data : list (string * (option string * option string)))
    (albums_data : list (string * list (option string))) (df : DataFrame) :
  Invariants.all_or_nothing (SafeData.fill_locations_table locations_lst) w
  /\ Invariants.all_or_nothing (SafeData.fill_areas_table areas_lst) w
  /\ Invariants.all_or_nothing (SafeData.fill_artists_table artists_data) w
  /\ Invariants.all_or_nothing (SafeData.fill_albums_table albums_data) w
  /\ Invariants.all_or_nothing (SafeData.fill_concerts_table df) w.
Proof.
  split; [|split; [|split; [|split]]].
  - apply commit_after_stable, stable_locations.
  - apply commit_after_stable, stable_areas.
  - apply commit_after_stable, stable_artists.
  - apply commit_after_stable, stable_albums.
  - apply commit_after_stable, stable_concerts.
Qed.

(** ** Unique names, and finding what was inserted *)

Section UniqueNameFacts.

Import Repo.

Lemma for_each_run_raise {A} (body : A -> M unit) stmt :
  (forall x w t, stmt x (current (conn w)) = Ok t ->
                 exists w', body x w = (Ok tt, w') /\ reaches w t w') ->
  (forall x w e, stmt x (current (conn w)) = Raise e ->
                 fst (body x w) = Raise e) ->
  forall l w e,
    run_all stmt l (current (conn w)) = Raise e ->
    fst (for_each l body w) = Raise e.
Proof.
  intros Hok Hraise. induction l as [|x l IH]; intros w e H.
  - discriminate H.
  - cbn [run_all] in H. cbn [for_each]. unfold bind.
    destruct (stmt x (current (conn w))) as [t1|e1] eqn:E.
    + destruct (Hok x w t1 E) as (w1 & Hstep & _ & Hcur & _).
      rewrite Hstep. apply IH. rewrite Hcur. exact H.
    + injection H as <-. specialize (Hraise x w e1 E).
      destruct (body x w) as [[[]|e2] w1]; cbn [fst] in *;
        [discriminate | congruence].
Qed.

Lemma execute_raise key stmt w e :
  stmt (current (conn w)) = Raise e ->
  fst (SafeData.execute key stmt w) = Raise e.
Proof. intros H. unfold SafeData.execute. rewrite H. reflexivity. Qed.

(** A loop of INSERTs that fails after the key was drawn has moved the
    sequence on. *)
Lemma failed_insert_burns_key {A} key (stmt : A -> tables -> result tables)
    (l : list A) :
  (forall x, Invariants.draws (stmt x)) ->
  forall w e,
    fst (for_each l (fun x => SafeData.execute key (stmt x)) w) = Raise e ->
    SafeData.draws_key e = true ->
    (Invariants.value_of key (current (conn w))
     < Invariants.value_of key
         (current
            (conn (snd (for_each l
                          (fun x => SafeData.execute key (stmt x)) w)))))%Z.
Proof.
  intros Hd. induction l as [|x l IH]; intros w e H He; [discriminate H|].
  cbn [for_each] in *. unfold bind in *. unfold SafeData.execute at 1 in H.
  unfold SafeData.execute at 1.
  destruct (stmt x (current (conn w))) as [t|e1] eqn:E.
  - specialize (IH _ e H He). cbn [current conn SafeData.working] in IH.
    pose proof (Hd x _ _ E key). lia.
  - cbn [fst snd] in *. injection H as ->. rewrite He.
    cbn [current conn SafeData.working]. destruct key; cbn; lia.
Qed.

Lemma insert_location_taken n t :
  fits n -> In (Some n) (map location_name (locations t)) ->
  SafeData.insert_location (Some n) t = Raise UniqueViolation.
Proof.
  intros Hn Hin. unfold SafeData.insert_location.
  rewrite (varchar255_null_fits (Some n) Hn).
  apply (existsb_name_is location_name) in Hin. rewrite Hin. reflexivity.
Qed.

Lemma insert_location_new n t :
  fits n -> ~ In (Some n) (map location_name (locations t)) ->
  SafeData.insert_location (Some n) t
  = Ok (append_locations [mkLocation (locations_seq t) (Some n)] t).
Proof.
  intros Hn Hin. unfold SafeData.insert_location.
  rewrite (varchar255_null_fits (Some n) Hn).
  destruct (existsb _ (locations t)) eqn:E; [|reflexivity].
  apply existsb_name_is in E. contradiction.
Qed.

Lemma repeated_location_raises names : forall t,
  Forall fits names ->
  (exists n, In n names /\ In (Some n) (map location_name (locations t)))
  \/ ~ NoDup names ->
  run_all SafeData.insert_location (map Some names) t = Raise UniqueViolation.
Proof.
  induction names as [|n names IH]; intros t Hfit H.
  - destruct H as [(n & [] & _)|H]; exfalso. apply H. constructor.
  - inversion Hfit as [|? ? Hn Hfit']; subst. cbn [map run_all].
    destruct (existsb (fun r => SafeData.name_is n (location_name r))
                (locations t)) eqn:E;
      [apply existsb_name_is in E; rename E into Hin
      |assert (~ In (Some n) (map location_name (locations t))) as Hnew
         by (intros Hin; apply (existsb_name_is location_name) in Hin;
             congruence)].
    + rewrite (insert_location_taken n t Hn Hin). reflexivity.
    + rewrite (insert_location_new n t Hn Hnew). apply IH; [exact Hfit'|].
      destruct (in_dec string_dec n names) as [Hrep|Hfresh].
      * left. exists n. split; [exact Hrep|].
        cbn [append_locations locations]. rewrite map_app.
        apply in_or_app. right. left. reflexivity.
      * destruct H as [(m & [<-|Hm] & Hin)|Hdup].
        -- contradiction.
        -- left. exists m. split; [exact Hm|].
           cbn [append_locations locations]. rewrite map_app.
           apply in_or_app. left. exact Hin.
        -- right. intros Hnd. apply Hdup. constructor; assumption.
Qed.

Lemma same_key_same_row {R} (id_of : R -> Z) rows r r' :
  NoDup (map id_of rows) -> In r rows -> In r' rows ->
  id_of r = id_of r' -> r = r'.
Proof.
  induction rows as [|x rows IH]; intros Hnd Hr Hr' Hid; [destruct Hr|].
  cbn [map] in Hnd. inversion Hnd as [|? ? Hx Hnd']; subst.
  destruct Hr as [<-|Hr], Hr' as [<-|Hr'].
  - reflexivity.
  - exfalso. apply Hx. rewrite Hid. apply in_map. exact Hr'.
  - exfalso. apply Hx. rewrite <- Hid. apply in_map. exact Hr.
  - apply IH; assumption.
Qed.

End UniqueNameFacts.

(** [fill_locations_table] does not deduplicate: a list that repeats a name
    raises [UniqueViolation], and none of its rows is committed; the keys
    that were drawn, that of the failed INSERT among them, are lost: the
    sequence of the database is beyond where it was. *)
Theorem fill_locations_rejects_repeated_name (names : list string)
    (w : world) :
  Forall Repo.fits names ->
  ~ NoDup names ->
  fst (SafeData.fill_locations_table (map Some names) w)
  = Raise UniqueViolation
  /\ Invariants.rows
       (committed
          (conn (snd (SafeData.fill_locations_table (map Some names) w))))
     = Invariants.rows (committed (conn w))
  /\ (locations_seq (current (conn w))
      < locations_seq
          (committed
             (conn (snd (SafeData.fill_locations_table (map Some names)
                           w)))))%Z.
Proof.
  intros Hfit Hdup.
  pose proof (repeated_location_raises names (current (conn w)) Hfit
                (or_intror Hdup)) as Hrun.
  set (loop := for_each (map Some names) (fun item =>
                 SafeData.execute locations_location_id_seq
                   (SafeData.insert_location item))).
  assert (fst (loop w) = Raise UniqueViolation) as Hloop.
  { apply (for_each_run_raise _ SafeData.insert_location); [| |exact Hrun].
    - intros x w0 t. apply execute_ok.
    - intros x w0 e. apply execute_raise. }
  pose proof (failed_insert_burns_key locations_location_id_seq
                SafeData.insert_location (map Some names)
                draws_insert_location w UniqueViolation Hloop eq_refl)
    as Hburn.
  fold loop in Hburn. cbn [Invariants.value_of] in Hburn.
  destruct (stable_locations (map Some names) w) as (Hrows & _ & _ & Hseq).
  fold loop in Hrows, Hseq. specialize (Hseq _ Hloop).
  assert (SafeData.fill_locations_table (map Some names) w
          = (Raise UniqueViolation, snd (loop w))) as ->.
  { unfold SafeData.fill_locations_table, bind. fold loop.
    destruct (loop w) as [[[]|e] w1]; cbn [fst snd] in *;
      [discriminate | congruence]. }
  cbn [fst snd]. split; [reflexivity|]. split; [exact Hrows|].
  assert (locations_seq (committed (conn (snd (loop w))))
          = locations_seq (current (conn (snd (loop w))))) as ->
    by (unfold Invariants.sequences in Hseq; congruence).
  exact Hburn.
Qed.

(** The locations of two concerts in the same hall, not deduplicated: the
    second INSERT fails, and the next key of the database is 3. *)
Lemma fill_locations_rejects_repeated_name_witness :
  (fst (SafeData.fill_locations_table [Some "Gasometer"; Some "Gasometer"]
          Examples.fresh_world)
   = Raise UniqueViolation
   /\ Invariants.rows
        (committed
           (conn (snd (SafeData.fill_locations_table
                         [Some "Gasometer"; Some "Gasometer"]
                         Examples.fresh_world))))
      = Invariants.rows (committed (conn Examples.fresh_world))
   /\ (locations_seq (current (conn Examples.fresh_world))
       < locations_seq
           (committed
              (conn (snd (SafeData.fill_locations_table
                            [Some "Gasometer"; Some "Gasometer"]
                            Examples.fresh_world)))))%Z)
  /\ locations_seq
       (committed
          (conn (snd (SafeData.fill_locations_table
                        [Some "Gasometer"; Some "Gasometer"]
                        Examples.fresh_world))))
     = 3%Z.
Proof.
  split; [|reflexivity].
  apply (fill_locations_rejects_repeated_name ["Gasometer"; "Gasometer"]
           Examples.fresh_world).
  - repeat constructor; unfold Repo.fits; simpl; lia.
  - intros H. inversion H as [|? ? Hin _]. apply Hin. left. reflexivity.
Defined.

(** Insert and lookup: after [fill_locations_table] on distinct names that
    fit the column, from an empty locations table, the lookup by name finds
    exactly the inserted names, and different names have different keys. *)
Theorem locations_inserted_are_found (names : list string) (w : world) :
  NoDup names -> Forall Repo.fits names ->
  locations (current (conn w)) = [] ->
  exists w',
    SafeData.fill_locations_table (map Some names) w = (Ok tt, w')
    /\ (forall n, In n names <->
          exists i,
            SafeData.select_location_id (Some n) (committed (conn w'))
            = Some i)
    /\ (forall n m i,
          SafeData.select_location_id (Some n) (committed (conn w')) = Some i ->
          SafeData.select_location_id (Some m) (committed (conn w')) = Some i ->
          n = m).
Proof.
  intros Hnd Hfit Hempty.
  destruct (locations_loop (map Some names) (current (conn w)))
    as (rows & Hrun & Hnames & Hkeys).
  { apply NoDup_map_Some. exact Hnd. }
  { apply Forall_forall. intros x Hx.
    apply in_map_iff in Hx as (n & <- & Hn). exists n.
    split; [reflexivity|]. rewrite Forall_forall in Hfit. auto. }
  { intros x _. rewrite Hempty. intros []. }
  eexists. split; [apply fill_locations_run; exact Hrun|].
  cbn [Repo.set_committed committed conn].
  assert (locations (Repo.append_locations rows (current (conn w))) = rows)
    as Hrows by (cbn [Repo.append_locations locations]; rewrite Hempty;
                 reflexivity).
  assert (NoDup (map location_id rows)) as Hids.
  { rewrite Hempty in Hkeys. destruct Hkeys as [H _]; [|exact H].
    split; constructor. }
  split.
  - intros n. split.
    + intros Hn. unfold SafeData.select_location_id. rewrite Hrows.
      destruct (List.find _ rows) as [r|] eqn:E.
      * exists (location_id r). reflexivity.
      * exfalso. revert E. apply find_name_present. rewrite Hnames.
        apply in_map. exact Hn.
    + intros [i Hi]. apply select_location_hit in Hi as (r & Hr & _ & Hn).
      rewrite Hrows in Hr.
      assert (In (Some n) (map Some names)) as Hin
        by (rewrite <- Hnames, <- Hn; apply in_map; exact Hr).
      apply in_map_iff in Hin as (n' & Heq & Hin). congruence.
  - intros n m i Hn Hm.
    apply select_location_hit in Hn as (r & Hr & Hri & Hrn).
    apply select_location_hit in Hm as (r' & Hr' & Hri' & Hrn').
    rewrite Hrows in Hr, Hr'.
    assert (r = r') as <-
      by (apply (same_key_same_row location_id rows); congruence).
    congruence.
Qed.

(** The two halls of the scenario. *)
Lemma locations_inserted_are_found_witness :
  exists w',
    SafeData.fill_locations_table [Some "Gasometer"; Some "Stadthalle"]
      Examples.fresh_world = (Ok tt, w')
    /\ exists i,
         SafeData.select_location_id (Some "Stadthalle") (committed (conn w'))
         = Some i.
Proof.
  destruct (locations_inserted_are_found ["Gasometer"; "Stadthalle"]
              Examples.fresh_world) as (w' & Hrun & Hfound & _).
  - constructor; [intros [H|[]]; discriminate H|].
    constructor; [intros []|constructor].
  - repeat constructor; unfold Repo.fits; simpl; lia.
  - reflexivity.
  - exists w'. split; [exact Hrun|]. apply Hfound. right. left. reflexivity.
Defined.

(** ** The albums table *)

Section AlbumRowFacts.

Lemma Forall2_in_pair {X Y} (P : X -> Y -> Prop) l rows :
  Forall2 P l rows ->
  forall x r, In (x, r) (combine l rows) -> P x r.
Proof.
  induction 1 as [|x' y l rows Hxy _ IH]; intros x r Hin; [destruct Hin|].
  destruct Hin as [Heq|Hin]; [injection Heq as <- <-; exact Hxy | auto].
Qed.

End AlbumRowFacts.

(** When every title fits its column, [fill_albums_table] succeeds and
    commits one row per (artist, title) pair of the dictionary, in dictionary
    order; an artist with an empty list adds nothing; and the titles of an
    artist who is not in the artists table are stored with a null
    [artist_id]. *)
Theorem fill_albums_one_row_per_title (w : world)
    (dicti : list (string * list (option string))) :
  Forall (fun item => Forall Repo.fits_null (snd item)) dicti ->
  exists rows,
    SafeData.fill_albums_table dicti w
    = (Ok tt,
       Repo.set_committed w (Repo.append_albums rows (current (conn w))))
    /\ Forall2 (fun pair r =>
         album_name r = snd pair
         /\ album_artist_id r
            = SafeData.select_artist_id (fst pair) (current (conn w)))
         (Repo.album_pairs dicti) rows
    /\ (forall pair r,
          In (pair, r) (combine (Repo.album_pairs dicti) rows) ->
          ~ In (fst pair) (map artist_name (artists (current (conn w)))) ->
          album_artist_id r = None).
Proof.
  intros Hfit.
  destruct (albums_loop dicti (current (conn w)) Hfit)
    as (rows & Hrun & Hrows).
  exists rows. split; [apply fill_albums_run; exact Hrun|].
  split; [exact Hrows|].
  intros pair r Hin Hmiss.
  destruct (Forall2_in_pair _ _ _ Hrows pair r Hin) as [_ Hid].
  rewrite Hid. apply select_artist_miss. exact Hmiss.
Qed.

(** Two titles of one artist and none of another, with no artist stored. *)
Lemma fill_albums_one_row_per_title_witness :
  exists rows,
    SafeData.fill_albums_table
      [("Powerwolf", [Some "Blessed"; Some "Preachers"]); ("Nightwish", [])]
      Examples.fresh_world
    = (Ok tt,
       Repo.set_committed Examples.fresh_world
         (Repo.append_albums rows (current (conn Examples.fresh_world))))
    /\ map album_name rows = [Some "Blessed"; Some "Preachers"]
    /\ map album_artist_id rows = [None; None].
Proof.
  destruct (fill_albums_one_row_per_title Examples.fresh_world
              [("Powerwolf", [Some "Blessed"; Some "Preachers"]);
               ("Nightwish", [])])
    as (rows & Hrun & Hrows & _).
  - constructor; [|constructor; [|constructor]]; cbn [snd].
    + constructor; [|constructor; [|constructor]];
        unfold Repo.fits_null, Repo.fits; simpl; lia.
    + constructor.
  - exists rows. split; [exact Hrun|].
    cbn [Repo.album_pairs flat_map map fst snd app] in Hrows.
    inversion Hrows as [|? r1 ? rows1 [H1 H1'] Hrows1]; subst.
    inversion Hrows1 as [|? r2 ? rows2 [H2 H2'] Hrows2]; subst.
    inversion Hrows2; subst.
    cbn [map]. rewrite H1, H2, H1', H2'. split; reflexivity.
Defined.

(** ** The database is rebuilt from nothing *)

Section RebuildFacts.

Import Invariants.

Lemma same_outcome_refl {A} (p : result A * world) : same_outcome p p.
Proof. split; reflexivity. Qed.

Lemma rebuilds_bind {A B} (c : M A) (k : A -> M B) :
  database_only c -> (forall a, database_only (k a)) ->
  database_only (bind c k).
Proof.
  intros Hc Hk w1 w2 Hw. unfold bind.
  destruct (Hc w1 w2 Hw) as [Hr Hconn].
  destruct (c w1) as [[a1|e1] w1'], (c w2) as [[a2|e2] w2'];
    cbn [fst snd] in *; try discriminate.
  - injection Hr as <-. apply Hk. exact Hconn.
  - injection Hr as <-. split; [reflexivity | exact Hconn].
Qed.

Lemma rebuilds_for_each {A} (l : list A) (body : A -> M unit) :
  (forall x, database_only (body x)) -> database_only (for_each l body).
Proof.
  intros Hb. induction l as [|x l IH].
  - intros w1 w2 Hw. split; [reflexivity | exact Hw].
  - cbn [for_each]. apply rebuilds_bind; [apply Hb | intros _; exact IH].
Qed.

Lemma rebuilds_execute key stmt :
  database_only (SafeData.execute key stmt).
Proof.
  intros w1 w2 Hw. unfold SafeData.execute. rewrite Hw.
  destruct (stmt (current (conn w2))); split; reflexivity.
Qed.

Lemma rebuilds_create_tables : database_only SafeData.create_tables.
Proof.
  intros w1 w2 Hw. unfold SafeData.create_tables. rewrite Hw.
  destruct (has_tables (conn w2)); split; cbn [fst snd conn];
    try reflexivity; exact Hw.
Qed.

Lemma rebuilds_fetchone {A} (query : tables -> A) :
  database_only (SafeData.fetchone query).
Proof.
  intros w1 w2 Hw. unfold SafeData.fetchone. rewrite Hw.
  split; [reflexivity | exact Hw].
Qed.

Lemma rebuilds_commit : database_only SafeData.commit.
Proof.
  intros w1 w2 Hw. unfold SafeData.commit. rewrite Hw.
  split; reflexivity.
Qed.

Lemma rebuilds_print o : database_only (print o).
Proof. intros w1 w2 Hw. split; [reflexivity | exact Hw]. Qed.

Lemma rebuilds_locations lst :
  database_only (SafeData.fill_locations_table lst).
Proof.
  apply rebuilds_bind; [|intros _; apply rebuilds_commit].
  apply rebuilds_for_each. intros x. apply rebuilds_execute.
Qed.

Lemma rebuilds_areas lst : database_only (SafeData.fill_areas_table lst).
Proof.
  apply rebuilds_bind; [|intros _; apply rebuilds_commit].
  apply rebuilds_for_each. intros x. apply rebuilds_execute.
Qed.

Lemma rebuilds_artists dicti :
  database_only (SafeData.fill_artists_table dicti).
Proof.
  apply rebuilds_bind; [|intros _; apply rebuilds_commit].
  apply rebuilds_for_each. intros [artist area_mbid].
  apply rebuilds_bind; [apply rebuilds_fetchone|].
  intros a. apply rebuilds_execute.
Qed.

Lemma rebuilds_albums dicti :
  database_only (SafeData.fill_albums_table dicti).
Proof.
  apply rebuilds_bind; [|intros _; apply rebuilds_commit].
  apply rebuilds_for_each. intros [artist albums].
  apply rebuilds_bind; [apply rebuilds_fetchone|].
  intros a. destruct albums as [|album albums].
  - intros w1 w2 Hw. split; [reflexivity | exact Hw].
  - apply rebuilds_for_each. intros x. apply rebuilds_execute.
Qed.

Lemma rebuilds_concerts df :
  database_only (SafeData.fill_concerts_table df).
Proof.
  apply rebuilds_bind; [|intros _; apply rebuilds_commit].
  apply rebuilds_for_each. intros row.
  apply rebuilds_bind; [apply rebuilds_fetchone|]. intros l.
  apply rebuilds_bind; [apply rebuilds_fetchone|]. intros a.
  apply rebuilds_execute.
Qed.

End RebuildFacts.

(** The DATABASE step starts from a database that was dropped and created
    anew: whether it succeeds, what it raises and the database it leaves
    (working and committed tables, sequences) are the same whatever the
    database held before and whatever was printed before.  It is the drop of
    the database that makes it so: [create_tables] by itself raises
    [DependentObjectsStillExist] on a database that has the tables, and
    changes nothing. *)
Theorem fill_database_forgets_previous_database (df : DataFrame)
    (artists_data_dicti : Main.artists_data)
    (albums_data_dicti : Main.albums_data) (w1 w2 : world) :
  Invariants.same_outcome
    (Main.fill_database df artists_data_dicti albums_data_dicti w1)
    (Main.fill_database df artists_data_dicti albums_data_dicti w2)
  /\ (has_tables (conn w1) = true ->
      SafeData.create_tables w1 = (Raise DependentObjectsStillExist, w1)).
Proof.
  split.
  - assert (Invariants.database_only
              (SafeData.create_tables ;;;
               SafeData.fill_locations_table
                 (map Some (Main.locations_lst df)) ;;;
               SafeData.fill_areas_table
                 (Main.areas_lst artists_data_dicti) ;;;
               SafeData.fill_artists_table artists_data_dicti ;;;
               SafeData.fill_albums_table albums_data_dicti ;;;
               SafeData.fill_concerts_table df ;;;
               print DatabaseCreated)) as Hrest.
    { apply rebuilds_bind; [apply rebuilds_create_tables | intros _].
      apply rebuilds_bind; [apply rebuilds_locations | intros _].
      apply rebuilds_bind; [apply rebuilds_areas | intros _].
      apply rebuilds_bind; [apply rebuilds_artists | intros _].
      apply rebuilds_bind; [apply rebuilds_albums | intros _].
      apply rebuilds_bind; [apply rebuilds_concerts | intros _].
      apply rebuilds_print. }
    exact (Hrest
             (mkWorld (console w1)
                (mkConnection empty_tables empty_tables false))
             (mkWorld (console w2)
                (mkConnection empty_tables empty_tables false))
             eq_refl).
  - intros H. unfold SafeData.create_tables. rewrite H. reflexivity.
Qed.

(** The DATABASE step on a database that has the tables, where
    [create_tables] alone fails. *)
Lemma fill_database_forgets_previous_database_witness :
  SafeData.create_tables Examples.fresh_world
  = (Raise DependentObjectsStillExist, Examples.fresh_world)
  /\ fst (Main.fill_database Examples.scenario_df [] []
            Examples.fresh_world)
     = fst (Main.fill_database Examples.scenario_df [] []
              (mkWorld [CollectNotice]
                 (mkConnection empty_tables empty_tables false))).
Proof.
  destruct (fill_database_forgets_previous_database Examples.scenario_df
              [] [] Examples.fresh_world
              (mkWorld [CollectNotice]
                 (mkConnection empty_tables empty_tables false)))
    as [[Hsame _] Hraise].
  split; [apply Hraise; reflexivity | exact Hsame].
Defined.

(** ** The whole run on any frame *)

(** On any scraped frame: when every concert has a date, the enrichment
    answers for every artist and every text fits its column, the run
    succeeds and commits all it wrote; the artists table holds the distinct
    artists of the frame and the locations table its distinct locations, in
    order of first appearance; there is one concert row per frame row, and
    each links to the location row and the artist row of its names, never to
    null; and every album row links to an artist row. *)
Theorem pipeline_links_every_concert (net : network)
    (ida area : string -> option string)
    (alb : string -> list (option string)) (df : DataFrame) (w : world) :
  (forall a, In a (Main.unique String.eqb (map Artist df)) -> forall w,
     ApiLogger.get_artist_id net a w = (Ok (Payload.of_text (ida a)), w)
     /\ ApiLogger.get_artist_area net (Payload.of_text (ida a)) w
        = (Ok (Payload.of_text (area a)), w)
     /\ ApiLogger.get_album_names net a w
        = (Ok (map Payload.of_text (alb a)), w)) ->
  Forall (fun row => Date row <> None /\ Repo.fits (Location row)) df ->
  (forall a, In a (Main.unique String.eqb (map Artist df)) ->
     Repo.fits a /\ Repo.fits_null (ida a)
     /\ SafeData.mb_id_check (ida a) = true
     /\ Repo.fits_null (area a) /\ Forall Repo.fits_null (alb a)) ->
  exists w',
    Main.pipeline net df w = (Ok tt, w')
    /\ current (conn w') = committed (conn w')
    /\ map artist_name (artists (committed (conn w')))
       = Main.unique String.eqb (map Artist df)
    /\ map location_name (locations (committed (conn w')))
       = map Some (Main.unique String.eqb (map Location df))
    /\ Forall2 (fun row r =>
         Some (concert_date r) = Date row
         /\ (exists l, In l (locations (committed (conn w')))
                       /\ concert_location_id r = Some (location_id l)
                       /\ location_name l = Some (Location row))
         /\ (exists a, In a (artists (committed (conn w')))
                       /\ concert_artist_id r = Some (artist_id a)
                       /\ artist_name a = Artist row))
         df (concerts_data (committed (conn w')))
    /\ (forall r, In r (albums (committed (conn w'))) ->
          exists a, In a (artists (committed (conn w')))
                    /\ album_artist_id r = Some (artist_id a)).
Proof.
  intros Hnet Hdf Hnames.
  destruct (pipeline_run net ida area alb df w Hnet Hdf Hnames)
    as (rowsL & rowsA & rowsR & rowsB & rowsC & Hrun & HnL & _ & HrowsR
        & HrowsB & HrowsC & _).
  set (db := Repo.database_of rowsL rowsA rowsR rowsB rowsC) in *.
  assert (locations db = rowsL) as HL by reflexivity.
  assert (artists db = rowsR) as HR by reflexivity.
  assert (albums db = rowsB) as HB by reflexivity.
  assert (concerts_data db = rowsC) as HC by reflexivity.
  assert (map artist_name rowsR = Main.unique String.eqb (map Artist df))
    as HnR.
  { apply (Forall2_map_eq artist_name _ _ _ (fun x r H => proj1 H) HrowsR). }
  eexists. split; [exact Hrun|]. cbn [conn current committed].
  split; [reflexivity|]. rewrite HL, HR, HB, HC.
  split; [exact HnR|]. split; [exact HnL|]. split.
  - refine (Forall2_impl_in _ _ _ _ _ HrowsC).
    intros row r Hrow (Hd & Hl & Ha). split; [exact Hd|]. split.
    + destruct (select_location_present (Location row) db)
        as (l & Hin & Hsel & Hn).
      { rewrite HL, HnL. apply in_map.
        apply (unique_in _ String.eqb_eq). apply in_map. exact Hrow. }
      exists l. rewrite <- HL, Hl. auto.
    + destruct (select_artist_present (Artist row) db)
        as (a & Hin & Hsel & Hn).
      { rewrite HR, HnR. apply (unique_in _ String.eqb_eq).
        apply in_map. exact Hrow. }
      exists a. rewrite <- HR, Ha. auto.
  - intros r Hr.
    destruct (Forall2_in_r _ _ _ r HrowsB Hr) as (pair & Hpair & _ & Ha).
    apply album_pairs_artist in Hpair.
    destruct (select_artist_present (fst pair) db) as (a & Hin & Hsel & _).
    { rewrite HR, HnR. exact Hpair. }
    exists a. rewrite <- HR, Ha. auto.
Qed.

(** The scenario with Powerwolf (two dates) and Nightwish (one date). *)
Lemma pipeline_links_every_concert_witness :
  exists w',
    Main.pipeline Examples.scenario_net Examples.scenario_df
      Examples.fresh_world = (Ok tt, w')
    /\ map artist_name (artists (committed (conn w')))
       = ["Powerwolf"; "Nightwish"].
Proof.
  destruct (pipeline_links_every_concert Examples.scenario_net
              (fun a => if String.eqb a "Powerwolf"
                        then Some Examples.sample_uuid
                        else Some Examples.other_uuid)
              (fun a => if String.eqb a "Powerwolf"
                        then Some "Austria" else None)
              (fun a => if String.eqb a "Powerwolf"
                        then [Some "Blessed"] else [Some "Once"])
              Examples.scenario_df Examples.fresh_world)
    as (w' & Hrun & _ & Hartists & _).
  - intros a [<-|[<-|[]]] w; repeat split.
  - repeat (constructor;
            [split; [discriminate | unfold Repo.fits; simpl; lia] |]).
    constructor.
  - intros a [<-|[<-|[]]]; cbn [String.eqb Ascii.eqb Bool.eqb];
      (split; [unfold Repo.fits; simpl; lia|]);
      (split; [unfold Repo.fits_null, Repo.fits; simpl; lia|]);
      (split; [reflexivity|]);
      (split; [unfold Repo.fits_null, Repo.fits; simpl; try lia; exact I|]);
      (constructor; [|constructor]);
      unfold Repo.fits_null, Repo.fits; simpl; lia.
  - exists w'. split; [exact Hrun | exact Hartists].
Defined.

(** ** A run without the MusicBrainz service *)

(** When the first MusicBrainz request fails, the run ends in the id lookup
    of the first artist, after the two notices: nothing of the DATABASE step
    is reached, so the database that exists is neither dropped nor
    changed. *)
Theorem pipeline_fails_before_database (net : network) (row : concert)
    (df : DataFrame) (w : world) :
  net (ArtistSearch (Artist row)) = NoConnection
  \/ net (ArtistSearch (Artist row)) = NotJson ->
  Main.pipeline net (row :: df) w
  = (Raise TypeError,
     mkWorld (console w ++ [CollectNotice; ConnectionToApiFailed]) (conn w)).
Proof.
  intros Hnet. unfold Main.pipeline.
  cbn [map Main.unique]. unfold bind at 1. unfold print at 1.
  unfold bind at 1. unfold Main.collect_artists. cbn [for_fold].
  unfold bind at 1. unfold bind at 1.
  unfold ApiLogger.get_artist_id. unfold bind at 1.
  unfold ApiLogger.api_request.
  destruct Hnet as [-> | ->]; cbn; rewrite <- app_assoc; reflexivity.
Qed.

(** The scenario frame while offline. *)
Lemma pipeline_fails_before_database_witness :
  fst (Main.pipeline Examples.offline Examples.scenario_df
         Examples.fresh_world) = Raise TypeError
  /\ conn (snd (Main.pipeline Examples.offline Examples.scenario_df
                  Examples.fresh_world)) = conn Examples.fresh_world.
Proof.
  unfold Examples.scenario_df.
  rewrite (pipeline_fails_before_database Examples.offline _ _
             Examples.fresh_world (or_introl eq_refl)).
  split; reflexivity.
Defined.

(** ** What the fill methods can raise *)

Section ErrorFacts.

Import Repo.















End ErrorFacts.




